(** * napari: texture dtype normalisation, GL limits and the selectable list

    A shallow embedding of

    - [src/napari/_vispy/utils/gl.py]: [texture_dtypes], [_opengl_context],
      [get_max_texture_sizes] and [fix_data_dtype];
    - [src/napari/utils/events/containers/_selectable_list.py]:
      [SelectableEventedList].

    Python exceptions are values of [exception]; a call that may raise
    returns a [result]. *)

From stdpp Require Import gmap strings list sorting.

Local Open Scope string_scope.
Local Open Scope Z_scope.

(** ** Exceptions and results *)

Inductive exception : Type :=
  | TypeError
  | KeyError
  | ValueError
  | IndexError.

Inductive result (A : Type) : Type :=
  | Ok (a : A)
  | Raise (e : exception).

Arguments Ok {A} a.
Arguments Raise {A} e.

#[global] Instance exception_eq_dec : EqDecision exception.
Proof. solve_decision. Defined.

(** * OpenGL utilities ([gl.py]) *)

Module GL.

(** A numpy dtype, as far as [fix_data_dtype] looks at it: the kind character
    ([dtype.kind]), the size of one element in bytes ([dtype.itemsize]) and
    whether the byte order is the non-native one.  Two dtypes compare equal
    (numpy's [==], which [in texture_dtypes] uses) when these agree.  Types of
    one byte have no byte order: their [swapped] is [false]. *)
Record dtype : Type := Dtype {
  kind : string;
  itemsize : Z;
  swapped : bool
}.

#[global] Instance dtype_eq_dec : EqDecision dtype.
Proof. solve_decision. Defined.

(** The numpy scalar types the function names: [np.uint8], [np.uint16],
    [np.float32]. *)
Inductive scalar_type : Type :=
  | np_uint8
  | np_uint16
  | np_float32.

#[global] Instance scalar_type_eq_dec : EqDecision scalar_type.
Proof. solve_decision. Defined.

(** [np.dtype(t)] for a scalar type [t]: native byte order. *)
Definition np_dtype (t : scalar_type) : dtype :=
  match t with
  | np_uint8 => Dtype "u" 1 false
  | np_uint16 => Dtype "u" 2 false
  | np_float32 => Dtype "f" 4 false
  end.

Definition texture_dtypes : list dtype :=
  [ np_dtype np_uint8; np_dtype np_uint16; np_dtype np_float32 ].

(** The dict literal that [fix_data_dtype] indexes with [dtype.kind]. *)
Definition kind_table : gmap string scalar_type :=
  <["i" := np_float32]>
  (<["f" := np_float32]>
  (<["u" := np_uint16]>
  (<["b" := np_uint8]> ∅))).

Section Arrays.

(** The element buffer of an array and numpy's conversion of it
    ([ndarray.astype]) belong to numpy; the conversion takes the dtype the
    buffer has and the one asked for. *)
Context {Buffer : Type}.
Variable astype_buffer : dtype → dtype → Buffer → Buffer.

Record ndarray : Type := NDArray {
  arr_dtype : dtype;
  arr_buffer : Buffer
}.

(** [data.astype(t)] *)
Definition astype (data : ndarray) (t : scalar_type) : ndarray :=
  NDArray (np_dtype t)
          (astype_buffer (arr_dtype data) (np_dtype t) (arr_buffer data)).

(** [fix_data_dtype], line by line.  The [try] block covers the dict lookup
    (a missing key is the [KeyError] that becomes [TypeError]) and the
    widening of large unsigned integers. *)
Definition fix_data_dtype (data : ndarray) : result ndarray :=
  let dtype := arr_dtype data in
  if bool_decide (dtype ∈ texture_dtypes) then Ok data
  else
    match kind_table !! kind dtype with
    | None => Raise TypeError
    | Some dtype_ =>
        let dtype_ :=
          if bool_decide (dtype_ = np_uint16) && bool_decide (itemsize dtype > 2)
          then np_float32 else dtype_ in
        Ok (astype data dtype_)
    end.

End Arrays.

Arguments ndarray Buffer : clear implicits.
Arguments NDArray {Buffer} arr_dtype arr_buffer.

(** Concrete arrays for examples: the buffer is a list of integers, and the
    conversion leaves the numbers as they are. *)
Definition keep_buffer (_ _ : dtype) (b : list Z) : list Z := b.

(** What [gl.glGetParameter] hands back: a number, a tuple of numbers (the
    empty tuple when the query fails) or a string. *)
Inductive gl_value : Type :=
  | GLInt (n : Z)
  | GLTuple (t : list Z)
  | GLStr (s : string).

(** [v == ()] *)
Definition is_empty_tuple (v : gl_value) : bool :=
  match v with
  | GLTuple [] => true
  | _ => false
  end.

Section Limits.

(** vispy and the GL driver are outside the repository: the state of the
    windowing system and driver is a [World], and the calls the module makes
    into vispy are functions on it. *)
Context {World Canvas : Type}.
Variable get_current_canvas : World → option Canvas.
Variable Canvas_hidden : World → Canvas * World.      (* Canvas(show=False) *)
Variable Canvas_close : Canvas → World → World.
Variable glGetParameter : Z → World → gl_value * World.
Variable GL_MAX_TEXTURE_SIZE : Z.                      (* gl.GL_MAX_TEXTURE_SIZE *)

(** [with _opengl_context(): body]: a hidden canvas is created only when
    there is no current one, and closed again after the body. *)
Definition _opengl_context {A : Type} (body : World → A * World)
    (w : World) : A * World :=
  let '(canvas, w) :=
    match get_current_canvas w with
    | None => let '(c, w') := Canvas_hidden w in (Some c, w')
    | Some _ => (None, w)
    end in
  let '(a, w) := body w in
  (a, match canvas with
      | Some c => Canvas_close c w
      | None => w
      end).

(** The body of [get_max_texture_sizes], without the cache. *)
Definition get_max_texture_sizes_body (w : World)
    : (option gl_value * option gl_value) * World :=
  let '(max_size_2d, w) :=
    _opengl_context (glGetParameter GL_MAX_TEXTURE_SIZE) w in
  let max_size_2d :=
    if is_empty_tuple max_size_2d then None else Some max_size_2d in
  let '(max_size_3d, w) :=
    _opengl_context (let GL_MAX_3D_TEXTURE_SIZE := 32883 in
                     glGetParameter GL_MAX_3D_TEXTURE_SIZE) w in
  let max_size_3d :=
    if is_empty_tuple max_size_3d then None else Some max_size_3d in
  ((max_size_2d, max_size_3d), w).

(** [functools.lru_cache] on a function without arguments: the cache holds
    at most the one result; a hit returns it without running the body. *)
Definition lru_cache {A : Type} (body : World → A * World)
    (cache : option A) (w : World) : A * (option A * World) :=
  match cache with
  | Some r => (r, (cache, w))
  | None => let '(r, w') := body w in (r, (Some r, w'))
  end.

Definition get_max_texture_sizes :=
  lru_cache get_max_texture_sizes_body.

(** A run of calls to [get_max_texture_sizes]; between two calls the rest of
    the program may bring the world into any state, here the next element of
    [ws].  The results are collected in call order. *)
Fixpoint repeated_calls (cache : option (option gl_value * option gl_value))
    (ws : list World) : list (option gl_value * option gl_value) :=
  match ws with
  | [] => []
  | w :: ws' =>
      let '(r, (cache', _)) := get_max_texture_sizes cache w in
      r :: repeated_calls cache' ws'
  end.

(** [get_gl_extensions]: one GL query inside a context, behind
    [lru_cache(maxsize=1)]. *)
Variable GL_EXTENSIONS : Z.                            (* gl.GL_EXTENSIONS *)

Definition get_gl_extensions_body (w : World) : gl_value * World :=
  _opengl_context (glGetParameter GL_EXTENSIONS) w.

Definition get_gl_extensions :=
  lru_cache get_gl_extensions_body.

(** A run of calls to [get_gl_extensions], as [repeated_calls]. *)
Fixpoint repeated_extension_calls (cache : option gl_value)
    (ws : list World) : list gl_value :=
  match ws with
  | [] => []
  | w :: ws' =>
      let '(r, (cache', _)) := get_gl_extensions cache w in
      r :: repeated_extension_calls cache' ws'
  end.

End Limits.

(** A small driver for examples: the world is the current canvas, if any,
    and the record of what was asked of vispy.  A canvas is numbered by the
    length of the record when it is created, and creating it makes it the
    current one; closing the current canvas leaves none. *)
Inductive toy_call : Type :=
  | Created (c : nat)
  | Queried (p : Z)
  | Closed (c : nat).

Record toy_world : Type := ToyWorld {
  toy_current : option nat;
  toy_record : list toy_call
}.

Definition toy_canvas (w : toy_world) : nat * toy_world :=
  let c := length (toy_record w) in
  (c, ToyWorld (Some c) (toy_record w ++ [Created c])).

Definition toy_close (c : nat) (w : toy_world) : toy_world :=
  ToyWorld (if bool_decide (toy_current w = Some c) then None
            else toy_current w)
           (toy_record w ++ [Closed c]).

Definition toy_query (p : Z) (w : toy_world) : gl_value * toy_world :=
  (if bool_decide (p = 32883) then GLTuple [] else GLInt 16384,
   ToyWorld (toy_current w) (toy_record w ++ [Queried p])).

(** ** [BLENDING_MODES]

    A dict of dicts; the inner values are booleans, strings and tuples of
    strings. *)
Inductive setting : Type :=
  | SBool (b : bool)
  | SStr (s : string)
  | STuple (t : list string).

#[global] Instance setting_eq_dec : EqDecision setting.
Proof. solve_decision. Defined.

Definition BLENDING_MODES : gmap string (gmap string setting) :=
  <["opaque" :=
      <["depth_test" := SBool true]>
      (<["cull_face" := SBool false]>
      (<["blend" := SBool false]> ∅))]>
  (<["translucent" :=
      <["depth_test" := SBool true]>
      (<["cull_face" := SBool false]>
      (<["blend" := SBool true]>
      (<["blend_func" :=
           STuple ["src_alpha"; "one_minus_src_alpha"; "one"; "one"]]>
      (<["blend_equation" := SStr "func_add"]> ∅))))]>
  (<["translucent_no_depth" :=
      <["depth_test" := SBool false]>
      (<["cull_face" := SBool false]>
      (<["blend" := SBool true]>
      (<["blend_func" :=
           STuple ["src_alpha"; "one_minus_src_alpha"; "one"; "one"]]>
      (<["blend_equation" := SStr "func_add"]> ∅))))]>
  (<["additive" :=
      <["depth_test" := SBool false]>
      (<["cull_face" := SBool false]>
      (<["blend" := SBool true]>
      (<["blend_func" := STuple ["src_alpha"; "dst_alpha"; "one"; "one"]]>
      (<["blend_equation" := SStr "func_add"]> ∅))))]>
  (<["minimum" :=
      <["depth_test" := SBool false]>
      (<["cull_face" := SBool false]>
      (<["blend" := SBool true]>
      (<["blend_equation" := SStr "min"]> ∅)))]>
  (<["multiplicative" :=
      <["depth_test" := SBool false]>
      (<["cull_face" := SBool false]>
      (<["blend" := SBool true]>
      (<["blend_func" := STuple ["dst_color"; "zero"; "one"; "one"]]>
      (<["blend_equation" := SStr "func_add"]> ∅))))]> ∅))))).

End GL.

(** * The selectable, evented list ([_selectable_list.py]) *)

Module SelectableList.

(** ** Python's list operations, with [int] indices *)

Section PyList.
Context {T : Type} `{EqDecision T}.

Definition py_len (l : list T) : Z := Z.of_nat (length l).

(** [list.insert(index, value)]: a negative index counts from the end, and
    an index beyond either end is clamped to it. *)
Definition py_insert (index : Z) (value : T) (l : list T) : list T :=
  let n := py_len l in
  let i := if bool_decide (index < 0) then Z.max (index + n) 0
           else Z.min index n in
  take (Z.to_nat i) l ++ value :: drop (Z.to_nat i) l.

(** [l[index]]: a negative index counts from the end; out of range raises
    [IndexError]. *)
Definition py_getitem (index : Z) (l : list T) : result T :=
  let n := py_len l in
  let i := if bool_decide (index < 0) then index + n else index in
  if bool_decide (0 ≤ i) && bool_decide (i < n) then
    match l !! Z.to_nat i with
    | Some x => Ok x
    | None => Raise IndexError
    end
  else Raise IndexError.

(** [l.pop(index)]: the element at [index] and the list without it. *)
Definition py_pop (index : Z) (l : list T) : result (T * list T) :=
  let n := py_len l in
  let i := if bool_decide (index < 0) then index + n else index in
  if bool_decide (0 ≤ i) && bool_decide (i < n) then
    match l !! Z.to_nat i with
    | Some x => Ok (x, delete (Z.to_nat i) l)
    | None => Raise IndexError
    end
  else Raise IndexError.

(** [l.index(value)]: position of the first element equal to [value]. *)
Fixpoint py_index (value : T) (l : list T) : option nat :=
  match l with
  | [] => None
  | x :: l' => if decide (x = value) then Some O else S <$> py_index value l'
  end.

End PyList.

Section Model.

(** The items are hashable Python objects other than [None], compared with
    [==]; [truthy x] is the truth value [bool(x)] of an item. *)
Context {T : Type} `{Countable T}.
Variable truthy : T → bool.

(** The events of the list's emitter group that the class docstring
    documents for insertion and removal. *)
Inductive event : Type :=
  | inserting (index : Z)
  | inserted (index : Z) (value : T)
  | removing (index : Z)
  | removed (index : Z) (value : T).

(** One object: the list ([_list]), its [selection] (the set, the [active]
    item and the private [_current] item), the flag [_activate_on_insert],
    and the events emitted so far, each with the contents of the list at the
    moment a listener receives it. *)
Record state : Type := State {
  _list : list T;
  selection : gset T;
  active : option T;
  _current : option T;
  _activate_on_insert : bool;
  emitted : list (event * list T)
}.

Definition with_list (l : list T) (s : state) : state :=
  State l (selection s) (active s) (_current s) (_activate_on_insert s) (emitted s).
Definition with_selection (X : gset T) (s : state) : state :=
  State (_list s) X (active s) (_current s) (_activate_on_insert s) (emitted s).
Definition with_active (a : option T) (s : state) : state :=
  State (_list s) (selection s) a (_current s) (_activate_on_insert s) (emitted s).
Definition with_current (c : option T) (s : state) : state :=
  State (_list s) (selection s) (active s) c (_activate_on_insert s) (emitted s).
Definition with_emitted (e : list (event * list T)) (s : state) : state :=
  State (_list s) (selection s) (active s) (_current s) (_activate_on_insert s) e.

(** An object that holds [data] with nothing selected and nothing emitted
    yet; [_activate_on_insert] is [True], as [__init__] sets it. *)
Definition unselected (data : list T) : state :=
  State data ∅ None None true [].

(** ** Methods: state passing with exceptions

    A method takes the object and gives back the object as it has left it
    and either a value or the exception raised; what was mutated before a
    [raise] stays mutated. *)
Definition M (A : Type) : Type := state → state * result A.

#[global] Instance M_ret : MRet M := λ A a s, (s, Ok a).
#[global] Instance M_bind : MBind M := λ A B f m s,
  match m s with
  | (s', Ok a) => f a s'
  | (s', Raise e) => (s', Raise e)
  end.

Definition raise {A : Type} (e : exception) : M A := λ s, (s, Raise e).
Definition get : M state := λ s, (s, Ok s).
Definition modify (f : state → state) : M unit := λ s, (f s, Ok tt).
Definition lift {A : Type} (r : result A) : M A := λ s, (s, r).

Definition emit (ev : event) : M unit :=
  modify (λ s, with_emitted (emitted s ++ [(ev, _list s)]) s).

(** ** [SelectableEventedList._preselect_hook] *)
Definition _preselect_hook (value : T) : M T :=
  s ← get;
  if bool_decide (value ∉ _list s) then raise ValueError
  else mret value.

(** ** The selection

    Modelled from the spec: the class [Selection] behind [self.selection]
    ([_selection.py]) is not among the sources.  The model is a Python set
    with the hook that [__init__] installs ([_pre_add_hook], "called before
    adding an item to the selection"), the [active] item, whose assignment
    is to "make layer selected and unselect all others" (the comment in
    [insert]), and the [_current] item; [add], [discard], [remove] and
    [update] are those of Python's mutable sets.  How [add], [discard] and
    [update] bear on [active] and [_current] is left out: the two fields
    hold what the last assignment stored, which is why the assignment to
    [active] looks at the selection as well.  The selection's own events
    ([selection.changed] and the like) are left out. *)

(** Modelled from the spec: [selection.add(value)]; an item already selected
    is not added again, any other goes through the hook first. *)
Definition selection_add (value : T) : M unit :=
  s ← get;
  if bool_decide (value ∈ selection s) then mret tt
  else
    v ← _preselect_hook value;
    modify (λ s, with_selection (selection s ∪ {[v]}) s).

(** Modelled from the spec: [selection.discard(value)]. *)
Definition selection_discard (value : T) : M unit :=
  modify (λ s, with_selection (selection s ∖ {[value]}) s).

(** Modelled from the spec: [selection.remove(value)], which raises
    [KeyError] for an item that is not selected. *)
Definition selection_remove (value : T) : M unit :=
  s ← get;
  if bool_decide (value ∉ selection s) then raise KeyError
  else selection_discard value.

(** The hook on each of [values] in turn; the first refusal raises. *)
Fixpoint hook_each (values : list T) : M (list T) :=
  match values with
  | [] => mret []
  | x :: rest =>
      v ← _preselect_hook x;
      vs ← hook_each rest;
      mret (v :: vs)
  end.

(** Modelled from the spec: [selection.update(others)]: the items not yet
    selected go through the hook, then all are added at once. *)
Definition selection_update (others : list T) : M unit :=
  s ← get;
  to_add ← hook_each (filter (λ x, x ∉ selection s) others);
  modify (λ s, with_selection (selection s ∪ list_to_set to_add) s).

(** Modelled from the spec: [selection.select_only(obj)]. *)
Definition selection_select_only (obj : T) : M unit :=
  modify (λ s, with_selection (selection s ∩ {[obj]}) s);;
  selection_add obj.

(** Modelled from the spec: [selection._current = value]. *)
Definition set_current (value : option T) : M unit :=
  modify (with_current value).

(** Modelled from the spec: [selection.active = value] for an item [value].
    Assigning the item that is active already changes nothing: the active
    item is the one selected item when exactly one is selected, so this is
    the case where [value] is recorded active and is the only selected
    item.  Any other assignment is to "make layer selected and unselect all
    others"; it records [value] as active and leaves it the current
    item. *)
Definition set_active (value : T) : M unit :=
  s ← get;
  if bool_decide (active s = Some value ∧ selection s = {[value]})
  then mret tt
  else
    modify (with_active (Some value));;
    selection_select_only value;;
    set_current (Some value).

(** ** [SelectableEventedList._process_delete_item] *)
Definition _process_delete_item (item : T) : M unit :=
  selection_discard item.

(** ** The evented list

    Modelled from the spec: the base class [EventedList]
    ([_evented_list.py]) is not among the sources.  The model is a Python
    list that emits the events of the class docstring: [inserting (index)]
    "before an item is inserted at index", [inserted (index, value)] after
    it, [removing (index)] "before an item is removed at index" and
    [removed (index, value)] after it; an item taken out is passed to
    [_process_delete_item] before [removed] is emitted.  [len], indexing,
    [in], [index] and [remove] are those of Python's sequences. *)

(** Modelled from the spec: [len(self)]. *)
Definition len : M Z :=
  s ← get; mret (py_len (_list s)).

(** Modelled from the spec: [self[index]] for an [int] index. *)
Definition getitem (index : Z) : M T :=
  s ← get; lift (py_getitem index (_list s)).

(** Modelled from the spec: [self.index(value)], [ValueError] when
    [value] is not in the list. *)
Definition index (value : T) : M Z :=
  s ← get;
  match py_index value (_list s) with
  | Some i => mret (Z.of_nat i)
  | None => raise ValueError
  end.

(** Modelled from the spec: [EventedList.insert(index, value)]. *)
Definition EventedList_insert (index : Z) (value : T) : M unit :=
  emit (inserting index);;
  modify (λ s, with_list (py_insert index value (_list s)) s);;
  emit (inserted index value).

(** Modelled from the spec: [del self[index]] for one position. *)
Definition delitem (index : Z) : M unit :=
  emit (removing index);;
  s ← get;
  popped ← lift (py_pop index (_list s));
  let '(item, rest) := popped in
  modify (with_list rest);;
  _process_delete_item item;;
  emit (removed index item).

(** Modelled from the spec: [self.remove(value)], Python's
    [del self[self.index(value)]]. *)
Definition remove (value : T) : M unit :=
  i ← index value;
  delitem i.

(** ** [SelectableEventedList], from the source *)

(** [insert] *)
Definition insert (index : Z) (value : T) : M unit :=
  EventedList_insert index value;;
  s ← get;
  if _activate_on_insert s then set_active value
  else mret tt.

(** [select_all] *)
Definition select_all : M unit :=
  s ← get;
  selection_update (_list s).

(** The loop of [remove_selected] over the items [todo] that are left of
    [list(self.selection)]; [idx] is the index seen last. *)
Fixpoint remove_each (todo : list T) (idx : Z) : M Z :=
  match todo with
  | [] => mret idx
  | i :: rest =>
      idx ← index i;
      remove i;;
      remove_each rest idx
  end.

(** [remove_selected].  In this class [index] gives an [int], so the branch
    [isinstance(idx, int)] is the one taken (the other serves nested
    lists).  The order in which Python walks the set is that of
    [elements]. *)
Definition remove_selected : M unit :=
  s ← get;
  idx ← remove_each (elements (selection s)) 0;
  let new := Z.max 0 (idx - 1) in
  n ← len;
  let do_add := bool_decide (n > new) in
  if do_add then
    x ← getitem new;
    selection_add x
  else mret tt.

(** [bool(self.selection._current)] *)
Definition truthy_item (c : option T) : bool :=
  match c with
  | Some x => truthy x
  | None => false
  end.

(** [select_next]; the [elif] branch is [select_end]. *)
Definition select_end (step : Z) : M unit :=
  n ← len;
  if bool_decide (n > 0) then
    x ← getitem (if bool_decide (step > 0) then -1 else 0);
    set_active x
  else mret tt.

Definition select_next (step : Z) (shift : bool) : M unit :=
  s ← get;
  if bool_decide (selection s ≠ ∅) && truthy_item (_current s) then
    match _current s with
    | None => mret tt   (* not reached: [None] is not truthy *)
    | Some cur =>
        i ← index cur;
        let idx := i + step in
        n ← len;
        if bool_decide (n > idx) && bool_decide (idx >= 0) then
          next_layer ← getitem idx;
          if shift then
            s ← get;
            if bool_decide (next_layer ∈ selection s) then
              selection_remove cur;;
              set_current (Some next_layer)
            else
              selection_add next_layer;;
              set_current (Some next_layer)
          else set_active next_layer
        else mret tt
    end
  else select_end step.

(** [select_previous] *)
Definition select_previous (shift : bool) : M unit :=
  select_next (-1) shift.

(** The selection holds only items of the list. *)
Definition selection_in_list (s : state) : Prop :=
  ∀ x, x ∈ selection s → x ∈ _list s.

(** A method keeps a property [I] of the object when [I] holds of the object
    it leaves behind, whether it returns or raises. *)
Definition keeps (I : state → Prop) {A : Type} (m : M A) : Prop :=
  ∀ s, I s → I (m s).1.

(** The events tell the history of the list: [notified l evs l'] when [evs]
    is a run of pairs [inserting]/[inserted] and [removing]/[removed], each
    pair received around exactly the change it names, that leads from the
    contents [l] to the contents [l']. *)
Inductive notified : list T → list (event * list T) → list T → Prop :=
  | notified_nil l :
      notified l [] l
  | notified_insert l (i : Z) v evs l' :
      notified (py_insert i v l) evs l' →
      notified l ((inserting i, l) :: (inserted i v, py_insert i v l) :: evs) l'
  | notified_remove l (i : nat) v evs l' :
      l !! i = Some v →
      notified (delete i l) evs l' →
      notified l ((removing (Z.of_nat i), l)
                  :: (removed (Z.of_nat i) v, delete i l) :: evs) l'.

(** A method notifies its mutations when what it emits tells the history of
    the list from the call to the return (or raise). *)
Definition notifies {A : Type} (m : M A) : Prop :=
  ∀ s, ∃ evs,
    emitted (m s).1 = (emitted s ++ evs)%list ∧
    notified (_list s) evs (_list (m s).1).

End Model.

Section MoveSelected.
Context {T : Type} `{Countable T}.

(** [warnings.warn(..., FutureWarning, stacklevel=2)] belongs to Python's
    warning machinery, which may print, stay silent or raise, as the filters
    say; [move_multiple] belongs to [EventedList], which is not among the
    sources.  Both are taken as they come. *)
Variable warnings_warn : M (T:=T) unit.
Variable move_multiple : list Z → Z → M (T:=T) Z.

(** [[i for i, x in enumerate(self) if x in self.selection]] *)
Definition selected_positions (l : list T) (X : gset T) : list Z :=
  (λ p : nat * T, Z.of_nat p.1)
    <$> filter (λ p : nat * T, p.2 ∈ X) (imap pair l).

(** [move_selected] *)
Definition move_selected (index insert : Z) : M (T:=T) unit :=
  warnings_warn;;
  x ← getitem index;
  s ← get;
  moving ←
    (if bool_decide (x ∉ selection s) then
       y ← getitem index;
       selection_select_only y;;
       mret [index]
     else
       s ← get;
       mret (selected_positions (_list s) (selection s)));
  let offset := bool_decide (insert >= index) in
  move_multiple moving (insert + (if offset then 1 else 0));;
  mret tt.

End MoveSelected.

(** Items for concrete runs: numbers, of which zero is the falsy one. *)
Definition nat_truthy (n : nat) : bool := negb (Nat.eqb n 0).

(** For concrete runs of [move_selected]: a warning that passes silently,
    and a stand-in for [move_multiple] that moves nothing and returns the
    number of positions it was given. *)
Definition quiet_warn : M (T:=nat) unit := mret tt.

Definition count_moves (moving : list Z) (dest : Z) : M (T:=nat) Z :=
  mret (Z.of_nat (length moving)).

End SelectableList.

(** * Properties of the OpenGL utilities *)

Module GLFacts.
Import GL.

Lemma kind_table_lookup (k : string) :
  kind_table !! k =
    if decide ("i" = k) then Some np_float32
    else if decide ("f" = k) then Some np_float32
    else if decide ("u" = k) then Some np_uint16
    else if decide ("b" = k) then Some np_uint8
    else None.
Proof.
  unfold kind_table.
  rewrite !lookup_insert, lookup_empty. reflexivity.
Qed.

Lemma kind_table_None (k : string) :
  kind_table !! k = None ↔ k ∉ ["i"; "f"; "u"; "b"].
Proof.
  rewrite kind_table_lookup, !not_elem_of_cons.
  repeat case_decide; subst; split; try discriminate; try tauto.
  intros _. repeat split; try congruence. apply not_elem_of_nil.
Qed.

Lemma texture_dtypes_elem (d : dtype) :
  d ∈ texture_dtypes ↔
  d = np_dtype np_uint8 ∨ d = np_dtype np_uint16 ∨ d = np_dtype np_float32.
Proof.
  unfold texture_dtypes. rewrite !elem_of_cons, elem_of_nil. tauto.
Qed.

Lemma np_dtype_accepted (t : scalar_type) : np_dtype t ∈ texture_dtypes.
Proof. rewrite texture_dtypes_elem. destruct t; auto. Qed.

Section ArrayFacts.
Context {Buffer : Type}.
Variable astype_buffer : dtype → dtype → Buffer → Buffer.

(** Accepted input comes back as it is. *)
Lemma fix_data_dtype_accepted (data : ndarray Buffer) :
  arr_dtype data ∈ texture_dtypes → fix_data_dtype astype_buffer data = Ok data.
Proof.
  intros Hin. unfold GL.fix_data_dtype.
  rewrite bool_decide_eq_true_2 by exact Hin. reflexivity.
Qed.

(** Any array that comes back has an accepted dtype. *)
Lemma fix_data_dtype_result_accepted (data r : ndarray Buffer) :
  fix_data_dtype astype_buffer data = Ok r → arr_dtype r ∈ texture_dtypes.
Proof.
  unfold GL.fix_data_dtype. case_bool_decide as Hin.
  - intros [= <-]. exact Hin.
  - destruct (kind_table !! kind (arr_dtype data)); [|discriminate].
    intros [= <-]. apply np_dtype_accepted.
Qed.

(** When the dtype is not accepted already, the result is the conversion
    to the scalar type that the kind and the item size select. *)
Lemma fix_data_dtype_converted (data : ndarray Buffer) (t : scalar_type) :
  arr_dtype data ∉ texture_dtypes →
  kind_table !! kind (arr_dtype data) = Some t →
  fix_data_dtype astype_buffer data =
    Ok (astype astype_buffer data
          (if bool_decide (t = np_uint16)
              && bool_decide (itemsize (arr_dtype data) > 2)
           then np_float32 else t)).
Proof.
  intros Hnin Ht. unfold fix_data_dtype.
  rewrite bool_decide_eq_false_2 by exact Hnin. rewrite Ht. reflexivity.
Qed.

(** C1, as amended.  For every array whose dtype kind is ["b"], ["i"], ["u"]
    or ["f"], [fix_data_dtype] returns an array with an accepted texture
    dtype: bool gives uint8, signed integers and floats give float32,
    unsigned integers of more than two bytes give float32, and unsigned
    integers of at most two bytes give uint16, except uint8 itself, which is
    accepted already and comes back as the same uint8 array. *)
Theorem fix_data_dtype_by_kind (data : ndarray Buffer) :
  kind (arr_dtype data) ∈ ["b"; "i"; "u"; "f"] →
  ∃ r, fix_data_dtype astype_buffer data = Ok r ∧
       arr_dtype r ∈ texture_dtypes ∧
       (kind (arr_dtype data) = "b" → arr_dtype r = np_dtype np_uint8) ∧
       (kind (arr_dtype data) = "i" ∨ kind (arr_dtype data) = "f" →
          arr_dtype r = np_dtype np_float32) ∧
       (kind (arr_dtype data) = "u" → itemsize (arr_dtype data) ≤ 2 →
          arr_dtype data ≠ np_dtype np_uint8 →
          arr_dtype r = np_dtype np_uint16) ∧
       (arr_dtype data = np_dtype np_uint8 → r = data) ∧
       (kind (arr_dtype data) = "u" → itemsize (arr_dtype data) > 2 →
          arr_dtype r = np_dtype np_float32).
Proof.
  intros Hk.
  destruct (decide (arr_dtype data ∈ texture_dtypes)) as [Hin|Hnin].
  - exists data. rewrite (fix_data_dtype_accepted data Hin).
    split; [reflexivity|]. split; [exact Hin|].
    apply texture_dtypes_elem in Hin.
    destruct Hin as [E|[E|E]]; rewrite E; simpl;
      repeat split; intros; try reflexivity; try congruence; try lia;
      try (destruct H as [?|?]; congruence).
  - assert (Hnot : ∀ t, arr_dtype data ≠ np_dtype t).
    { intros t E. apply Hnin. rewrite E. apply np_dtype_accepted. }
    rewrite !elem_of_cons, elem_of_nil in Hk.
    assert (∃ t, kind_table !! kind (arr_dtype data) = Some t ∧
                 (kind (arr_dtype data) = "b" → t = np_uint8) ∧
                 (kind (arr_dtype data) = "u" → t = np_uint16) ∧
                 (kind (arr_dtype data) = "i" ∨ kind (arr_dtype data) = "f" →
                    t = np_float32)) as (t & Hl & Hb & Hu & Hif).
    { rewrite kind_table_lookup.
      destruct Hk as [Hk|[Hk|[Hk|[Hk|[]]]]]; rewrite Hk; simpl;
        eexists; (split; [reflexivity|]); repeat split; intros;
        try reflexivity; try discriminate; intuition discriminate. }
    rewrite (fix_data_dtype_converted data t Hnin Hl).
    eexists; split; [reflexivity|]. simpl.
    split; [apply np_dtype_accepted|].
    split; [intros Hk'; rewrite (Hb Hk'); reflexivity|].
    split; [intros Hk'; rewrite (Hif Hk'); reflexivity|].
    split; [intros Hk' Hsz _; rewrite (Hu Hk'); simpl;
            rewrite bool_decide_eq_false_2 by lia; reflexivity|].
    split; [intros E; destruct (Hnot np_uint8 E)|].
    intros Hk' Hsz. rewrite (Hu Hk'). simpl.
    rewrite bool_decide_eq_true_2 by lia. reflexivity.
Qed.

(** C2.  [fix_data_dtype] raises, and then [TypeError], exactly when the
    dtype is not an accepted texture dtype and its kind is none of ["i"],
    ["f"], ["u"], ["b"]; in every other case it returns an array. *)
Theorem fix_data_dtype_raises_iff (data : ndarray Buffer) :
  let rejected :=
    (arr_dtype data ∉ texture_dtypes) ∧
    (kind (arr_dtype data) ∉ ["i"; "f"; "u"; "b"]) in
  (fix_data_dtype astype_buffer data = Raise TypeError ↔ rejected) ∧
  (∀ e, fix_data_dtype astype_buffer data = Raise e → e = TypeError) ∧
  (¬ rejected → ∃ r, fix_data_dtype astype_buffer data = Ok r).
Proof.
  simpl. unfold fix_data_dtype.
  case_bool_decide as Hin.
  - repeat split; try discriminate; try tauto. eauto.
  - destruct (kind_table !! kind (arr_dtype data)) as [t|] eqn:Hl.
    + assert (Hk : ¬ (kind (arr_dtype data) ∉ ["i"; "f"; "u"; "b"])).
      { rewrite <- kind_table_None, Hl. discriminate. }
      repeat split; try discriminate; try tauto. eauto.
    + apply kind_table_None in Hl.
      repeat split; try tauto. congruence.
Qed.

(** C4.  An array whose dtype is one of the accepted texture dtypes uint8,
    uint16, float32 is returned as it is. *)
Theorem fix_data_dtype_identity (data : ndarray Buffer) :
  arr_dtype data ∈ texture_dtypes →
  fix_data_dtype astype_buffer data = Ok data.
Proof. apply fix_data_dtype_accepted. Qed.

(** C5.  [fix_data_dtype] is idempotent: when it returns [r] for [data], it
    returns [r] unchanged for [r]. *)
Theorem fix_data_dtype_idempotent (data r : ndarray Buffer) :
  fix_data_dtype astype_buffer data = Ok r →
  fix_data_dtype astype_buffer r = Ok r.
Proof.
  intros Hr. apply fix_data_dtype_accepted.
  exact (fix_data_dtype_result_accepted data r Hr).
Qed.

End ArrayFacts.

Section LimitFacts.
Context {World Canvas : Type}.
Variable get_current_canvas : World → option Canvas.
Variable Canvas_hidden : World → Canvas * World.
Variable Canvas_close : Canvas → World → World.
Variable glGetParameter : Z → World → gl_value * World.
Variable GL_MAX_TEXTURE_SIZE : Z.

(** With a filled cache every call is a hit. *)
Lemma repeated_calls_hit (r : option gl_value * option gl_value)
    (ws : list World) :
  repeated_calls get_current_canvas Canvas_hidden Canvas_close
    glGetParameter GL_MAX_TEXTURE_SIZE (Some r) ws
  = replicate (length ws) r.
Proof.
  induction ws as [|w ws IH]; [reflexivity|].
  simpl. f_equal. exact IH.
Qed.

(** The uncached body returns the two query results, [None] standing in for
    an empty tuple. *)
Lemma get_max_texture_sizes_body_result (w : World) :
  let q2 := _opengl_context get_current_canvas Canvas_hidden Canvas_close
              (glGetParameter GL_MAX_TEXTURE_SIZE) w in
  let q3 := _opengl_context get_current_canvas Canvas_hidden Canvas_close
              (glGetParameter 32883) q2.2 in
  get_max_texture_sizes_body get_current_canvas Canvas_hidden Canvas_close
    glGetParameter GL_MAX_TEXTURE_SIZE w
  = ((if is_empty_tuple q2.1 then None else Some q2.1,
      if is_empty_tuple q3.1 then None else Some q3.1), q3.2).
Proof.
  unfold get_max_texture_sizes_body. simpl.
  destruct (_opengl_context _ _ _ (glGetParameter GL_MAX_TEXTURE_SIZE) w)
    as [v2 w2]. simpl.
  destruct (_opengl_context _ _ _ (glGetParameter 32883) w2) as [v3 w3].
  reflexivity.
Qed.

(** The test [== ()] holds of the empty tuple and of nothing else. *)
Lemma none_for_empty_tuple (v : gl_value) :
  (if is_empty_tuple v then None else Some v)
  = match v with
    | GLTuple [] => None
    | _ => Some v
    end.
Proof. destruct v as [n|[|x t]|s]; reflexivity. Qed.

(** C8.  The first call of [get_max_texture_sizes] returns the pair of the
    two GL queries (2D: [GL_MAX_TEXTURE_SIZE], 3D: parameter 32883), each
    made inside an OpenGL context: a component is [None] exactly when its
    query gave the empty tuple, and is the value the query gave otherwise;
    every later call, whatever the state of the world then, returns a
    result equal to that of the first. *)
Theorem get_max_texture_sizes_cached (w : World) (ws : list World) :
  let q2 := _opengl_context get_current_canvas Canvas_hidden Canvas_close
              (glGetParameter GL_MAX_TEXTURE_SIZE) w in
  let q3 := _opengl_context get_current_canvas Canvas_hidden Canvas_close
              (glGetParameter 32883) q2.2 in
  let first :=
    (match q2.1 with
     | GLTuple [] => None
     | _ => Some q2.1
     end,
     match q3.1 with
     | GLTuple [] => None
     | _ => Some q3.1
     end) in
  (get_max_texture_sizes get_current_canvas Canvas_hidden Canvas_close
     glGetParameter GL_MAX_TEXTURE_SIZE None w).1 = first ∧
  (first.1 = None ↔ q2.1 = GLTuple []) ∧
  (first.2 = None ↔ q3.1 = GLTuple []) ∧
  repeated_calls get_current_canvas Canvas_hidden Canvas_close
    glGetParameter GL_MAX_TEXTURE_SIZE None (w :: ws)
  = replicate (S (length ws)) first.
Proof.
  intros q2 q3 first.
  pose proof (get_max_texture_sizes_body_result w) as Hbody.
  simpl in Hbody. rewrite !none_for_empty_tuple in Hbody.
  fold q2 q3 first in Hbody.
  unfold repeated_calls, get_max_texture_sizes, lru_cache.
  rewrite Hbody. split; [reflexivity|].
  split; [|split].
  - unfold first. simpl. destruct q2.1 as [n|[|x t]|s];
      split; intros E; try reflexivity; discriminate E.
  - unfold first. simpl. destruct q3.1 as [n|[|x t]|s];
      split; intros E; try reflexivity; discriminate E.
  - simpl. f_equal. apply repeated_calls_hit.
Qed.

End LimitFacts.

(** C1 as stated fails: a uint8 array is of kind ["u"] with item size 1, and
    it comes back as uint8, not as uint16. *)
Lemma fix_data_dtype_uint8_stays :
  ¬ (∀ data : ndarray (list Z),
       kind (arr_dtype data) = "u" → itemsize (arr_dtype data) ≤ 2 →
       ∃ r, fix_data_dtype keep_buffer data = Ok r ∧
            arr_dtype r = np_dtype np_uint16).
Proof.
  intros Hclaim.
  destruct (Hclaim (NDArray (np_dtype np_uint8) [7; 255]))
    as (r & Hr & Hd); [reflexivity|simpl; lia|].
  vm_compute in Hr. injection Hr as <-. discriminate Hd.
Qed.

Lemma fix_data_dtype_by_kind_witness :
  ∃ r, fix_data_dtype keep_buffer (NDArray (Dtype "u" 8 false) [7; 255]) = Ok r ∧
       arr_dtype r = np_dtype np_float32.
Proof.
  destruct (fix_data_dtype_by_kind keep_buffer
              (NDArray (Dtype "u" 8 false) [7; 255]))
    as (r & Hr & _ & _ & _ & _ & _ & H64).
  - simpl. rewrite !elem_of_cons. auto.
  - exists r. split; [exact Hr|]. apply H64; [reflexivity|simpl; lia].
Defined.

Lemma fix_data_dtype_raises_iff_witness :
  fix_data_dtype keep_buffer (NDArray (Dtype "c" 16 false) [3; 4])
  = Raise TypeError.
Proof.
  apply (fix_data_dtype_raises_iff keep_buffer
           (NDArray (Dtype "c" 16 false) [3; 4])).
  simpl. split.
  - rewrite texture_dtypes_elem. unfold np_dtype.
    intros [E|[E|E]]; discriminate E.
  - rewrite !not_elem_of_cons. repeat split; try discriminate.
    apply not_elem_of_nil.
Defined.

(** A driver whose answers grow from call to call: the cached function keeps
    giving the answers of its first run. *)
Example get_max_texture_sizes_run :
  repeated_calls (World := Z) (Canvas := unit)
    (λ _, None) (λ w, (tt, w)) (λ _ w, w)
    (λ p w, (if bool_decide (p = 32883) then GLTuple [] else GLInt (1024 * w),
             w + 1))
    3379 None [8; 16; 2]
  = [(Some (GLInt 8192), None); (Some (GLInt 8192), None);
     (Some (GLInt 8192), None)].
Proof. reflexivity. Qed.

Lemma fix_data_dtype_identity_witness :
  fix_data_dtype keep_buffer (NDArray (np_dtype np_uint16) [1; 65535])
  = Ok (NDArray (np_dtype np_uint16) [1; 65535]).
Proof.
  apply (fix_data_dtype_identity keep_buffer).
  simpl. unfold texture_dtypes. rewrite !elem_of_cons. auto.
Defined.

Lemma fix_data_dtype_idempotent_witness :
  fix_data_dtype keep_buffer (NDArray (np_dtype np_float32) [1; -2])
  = Ok (NDArray (np_dtype np_float32) [1; -2]).
Proof.
  apply (fix_data_dtype_idempotent keep_buffer
           (NDArray (Dtype "i" 8 false) [1; -2])).
  reflexivity.
Defined.

End GLFacts.

(** * Properties of the selectable list *)

Module SelectableListFacts.
Import SelectableList.

(** ** Python's list operations *)

Section PyListFacts.
Context {T : Type} `{EqDecision T}.
Implicit Types (l : list T) (x v : T).

Lemma py_insert_nonneg (i : Z) v l :
  0 ≤ i ≤ py_len l →
  py_insert i v l = (take (Z.to_nat i) l ++ v :: drop (Z.to_nat i) l)%list.
Proof.
  intros Hi. unfold py_insert.
  rewrite bool_decide_eq_false_2 by lia.
  rewrite Z.min_l by lia. reflexivity.
Qed.

Lemma elem_of_py_insert (i : Z) v l x :
  x ∈ py_insert i v l ↔ x = v ∨ x ∈ l.
Proof.
  unfold py_insert.
  set (n := Z.to_nat _).
  rewrite elem_of_app, elem_of_cons.
  rewrite <- (take_drop n l) at 3. rewrite elem_of_app. tauto.
Qed.

Lemma py_index_lookup v l (i : nat) :
  py_index v l = Some i → l !! i = Some v.
Proof.
  revert i. induction l as [|x l IH]; intros i; simpl; [discriminate|].
  case_decide as Hx.
  - intros [= <-]. simpl. congruence.
  - destruct (py_index v l) as [j|]; simpl; [|discriminate].
    intros [= <-]. simpl. apply IH. reflexivity.
Qed.

Lemma py_index_None v l : py_index v l = None ↔ v ∉ l.
Proof.
  induction l as [|x l IH]; simpl.
  - split; [intros _; apply not_elem_of_nil | reflexivity].
  - rewrite not_elem_of_cons. case_decide as Hx.
    + split; [discriminate | intros [Hne _]; congruence].
    + destruct (py_index v l) as [j|]; simpl.
      * split; [discriminate|]. intros [_ Hnin].
        apply IH in Hnin. discriminate.
      * split; [|reflexivity]. intros _. split; [congruence|].
        apply IH. reflexivity.
Qed.

Lemma py_index_elem v l : v ∈ l → ∃ i : nat, py_index v l = Some i.
Proof.
  intros Hin. destruct (py_index v l) as [i|] eqn:E; [eauto|].
  apply py_index_None in E. contradiction.
Qed.

Lemma py_getitem_nonneg (i : nat) l x :
  l !! i = Some x → py_getitem (Z.of_nat i) l = Ok x.
Proof.
  intros Hl. pose proof (lookup_lt_Some _ _ _ Hl) as Hlt.
  unfold py_getitem, py_len.
  rewrite (bool_decide_eq_false_2 (Z.of_nat i < 0)) by lia.
  rewrite (bool_decide_eq_true_2 (0 ≤ Z.of_nat i)) by lia.
  rewrite (bool_decide_eq_true_2 (Z.of_nat i < Z.of_nat (length l))) by lia.
  simpl. rewrite Nat2Z.id, Hl. reflexivity.
Qed.

Lemma py_pop_nonneg (i : nat) l x :
  l !! i = Some x → py_pop (Z.of_nat i) l = Ok (x, delete i l).
Proof.
  intros Hl. pose proof (lookup_lt_Some _ _ _ Hl) as Hlt.
  unfold py_pop, py_len.
  rewrite (bool_decide_eq_false_2 (Z.of_nat i < 0)) by lia.
  rewrite (bool_decide_eq_true_2 (0 ≤ Z.of_nat i)) by lia.
  rewrite (bool_decide_eq_true_2 (Z.of_nat i < Z.of_nat (length l))) by lia.
  simpl. rewrite Nat2Z.id, Hl. reflexivity.
Qed.

Lemma py_pop_Ok (i : Z) l x rest :
  py_pop i l = Ok (x, rest) →
  ∃ n : nat, l !! n = Some x ∧ rest = delete n l.
Proof.
  unfold py_pop.
  destruct (_ && _); [|discriminate].
  destruct (l !! _) as [y|] eqn:E; [|discriminate].
  intros [= <- <-]. eauto.
Qed.

Lemma elem_of_delete_other (n : nat) l x y :
  l !! n = Some y → x ∈ l → x ≠ y → x ∈ delete n l.
Proof.
  intros Hn Hx Hne.
  rewrite <- (take_drop_middle l n y Hn) in Hx.
  rewrite delete_take_drop.
  rewrite elem_of_app, elem_of_cons in Hx. rewrite elem_of_app.
  destruct Hx as [?|[?|?]]; [by left|contradiction|by right].
Qed.

End PyListFacts.

Section MethodFacts.
Context {T : Type} `{Countable T}.
Implicit Types (s : state (T:=T)) (x v : T) (I : state (T:=T) → Prop).

(** ** Running a method *)

Ltac run :=
  cbv beta iota zeta delta [mbind M_bind mret M_ret get modify raise lift].

Lemma bind_Ok {A B : Type} (m : M A) (f : A → M B) s s' (a : A) :
  m s = (s', Ok a) → (m ≫= f) s = f a s'.
Proof. intros Hm. unfold mbind, M_bind. rewrite Hm. reflexivity. Qed.

Lemma bind_Raise {A B : Type} (m : M A) (f : A → M B) s s' e :
  m s = (s', Raise e) → (m ≫= f) s = (s', Raise e).
Proof. intros Hm. unfold mbind, M_bind. rewrite Hm. reflexivity. Qed.

Lemma keeps_bind {A B : Type} I (m : M A) (f : A → M B) :
  keeps I m → (∀ a, keeps I (f a)) → keeps I (m ≫= f).
Proof.
  intros Hm Hf s Hs. specialize (Hm s Hs).
  unfold mbind, M_bind. destruct (m s) as [s' [a|e]]; simpl in *.
  - apply Hf. exact Hm.
  - exact Hm.
Qed.

Lemma keeps_ret {A : Type} I (a : A) : keeps I (mret a).
Proof. intros s Hs. exact Hs. Qed.

(** Reading the object: what follows may rely on [I] of the object read. *)
Lemma keeps_get {A : Type} I (f : state → M A) :
  (∀ s0, I s0 → I (f s0 s0).1) → keeps I (get ≫= f).
Proof. intros Hf s Hs. apply Hf. exact Hs. Qed.

Lemma keeps_get_any {A : Type} I (f : state → M A) :
  (∀ s0, keeps I (f s0)) → keeps I (get ≫= f).
Proof. intros Hf s Hs. apply Hf. exact Hs. Qed.

Lemma keeps_modify I (g : state → state) :
  (∀ s, I s → I (g s)) → keeps I (modify g).
Proof. intros Hg s Hs. apply Hg. exact Hs. Qed.

(** ** The invariant under the methods of the selection and the list *)

Lemma keeps_set_current (c : option T) :
  keeps selection_in_list (set_current c).
Proof. apply keeps_modify. intros s Hs. exact Hs. Qed.

Lemma _preselect_hook_run v s :
  _preselect_hook v s =
    if bool_decide (v ∉ _list s) then (s, Raise ValueError) else (s, Ok v).
Proof. unfold _preselect_hook. run. case_bool_decide; reflexivity. Qed.

Lemma selection_add_run v s :
  selection_add v s =
    if bool_decide (v ∈ selection s) then (s, Ok tt)
    else if bool_decide (v ∉ _list s) then (s, Raise ValueError)
    else (with_selection (selection s ∪ {[v]}) s, Ok tt).
Proof.
  unfold selection_add. run. case_bool_decide; [reflexivity|].
  rewrite _preselect_hook_run.
  case_bool_decide; reflexivity.
Qed.

Lemma keeps_selection_add v : keeps selection_in_list (selection_add v).
Proof.
  intros s Hs. rewrite selection_add_run.
  repeat case_bool_decide; simpl; try exact Hs.
  intros x. simpl. rewrite elem_of_union, elem_of_singleton.
  intros [Hx| ->]; [by apply Hs|].
  assumption.
Qed.

Lemma keeps_selection_discard v :
  keeps selection_in_list (selection_discard v).
Proof.
  apply keeps_modify. intros s Hs x. simpl.
  rewrite elem_of_difference. intros [Hx _]. by apply Hs.
Qed.

Lemma keeps_selection_remove v :
  keeps selection_in_list (selection_remove v).
Proof.
  apply keeps_get. intros s Hs.
  case_bool_decide; [exact Hs|]. by apply keeps_selection_discard.
Qed.

Lemma keeps_selection_select_only v :
  keeps selection_in_list (selection_select_only v).
Proof.
  apply keeps_bind; [|intros _; apply keeps_selection_add].
  apply keeps_modify. intros s Hs x. simpl.
  rewrite elem_of_intersection. intros [Hx _]. by apply Hs.
Qed.

Lemma keeps_set_active v : keeps selection_in_list (set_active v).
Proof.
  apply keeps_get_any. intros s0. case_bool_decide; [apply keeps_ret|].
  apply keeps_bind; [apply keeps_modify; intros s Hs; exact Hs|intros _].
  apply keeps_bind; [apply keeps_selection_select_only|intros _].
  apply keeps_set_current.
Qed.

Lemma hook_each_run (values : list T) s :
  hook_each values s =
    if bool_decide (Forall (λ x, x ∈ _list s) values) then (s, Ok values)
    else (s, Raise ValueError).
Proof.
  induction values as [|x rest IH].
  - rewrite bool_decide_eq_true_2 by constructor. reflexivity.
  - cbn [hook_each]. run. rewrite _preselect_hook_run.
    pose proof (Forall_cons (λ x, x ∈ _list s) x rest) as HF.
    destruct (bool_decide (x ∉ _list s)) eqn:Hx;
      [apply bool_decide_eq_true_1 in Hx | apply bool_decide_eq_false_1 in Hx];
      [|rewrite IH]; repeat case_bool_decide; try reflexivity; tauto.
Qed.

Lemma keeps_selection_update (others : list T) :
  keeps selection_in_list (selection_update others).
Proof.
  apply keeps_get. intros s Hs.
  unfold mbind, M_bind. rewrite hook_each_run.
  case_bool_decide as HF; [|exact Hs].
  intros x. simpl. rewrite elem_of_union, elem_of_list_to_set.
  intros [Hx|Hx]; [by apply Hs|].
  rewrite Forall_forall in HF. by apply HF.
Qed.

Lemma len_run s : len s = (s, Ok (py_len (_list s))).
Proof. reflexivity. Qed.

Lemma getitem_run (i : Z) s : getitem i s = (s, py_getitem i (_list s)).
Proof. reflexivity. Qed.

Lemma index_run v s :
  index v s = match py_index v (_list s) with
              | Some i => (s, Ok (Z.of_nat i))
              | None => (s, Raise ValueError)
              end.
Proof. unfold index. run. destruct (py_index v (_list s)); reflexivity. Qed.

Lemma keeps_len I : keeps I len.
Proof. intros s Hs. exact Hs. Qed.

Lemma keeps_getitem I (i : Z) : keeps I (getitem i).
Proof. intros s Hs. exact Hs. Qed.

Lemma keeps_index I v : keeps I (index v).
Proof.
  intros s Hs. rewrite index_run.
  destruct (py_index v (_list s)); exact Hs.
Qed.

Lemma EventedList_insert_run (i : Z) v s :
  EventedList_insert i v s =
    (with_emitted
       (emitted s ++ [(inserting i, _list s);
                      (inserted i v, py_insert i v (_list s))])
       (with_list (py_insert i v (_list s)) s), Ok tt).
Proof.
  unfold EventedList_insert, emit. run.
  unfold with_emitted, with_list. simpl.
  rewrite <- app_assoc. reflexivity.
Qed.

Lemma keeps_EventedList_insert (i : Z) v :
  keeps selection_in_list (EventedList_insert i v).
Proof.
  intros s Hs. rewrite EventedList_insert_run. intros x Hx. simpl in *.
  apply elem_of_py_insert. right. by apply Hs.
Qed.

Lemma delitem_run (i : Z) s :
  delitem i s =
    match py_pop i (_list s) with
    | Ok (item, rest) =>
        (with_emitted
           (emitted s ++ [(removing i, _list s); (removed i item, rest)])
           (with_selection (selection s ∖ {[item]}) (with_list rest s)),
         Ok tt)
    | Raise e =>
        (with_emitted (emitted s ++ [(removing i, _list s)]) s, Raise e)
    end.
Proof.
  unfold delitem, emit, _process_delete_item, selection_discard. run.
  unfold with_emitted at 2. simpl.
  destruct (py_pop i (_list s)) as [[item rest]|e]; [|reflexivity].
  unfold with_emitted, with_list, with_selection. simpl.
  rewrite <- app_assoc. reflexivity.
Qed.

Lemma keeps_delitem (i : Z) :
  keeps (selection_in_list (T:=T)) (delitem i).
Proof.
  intros s Hs. rewrite delitem_run.
  destruct (py_pop i (_list s)) as [[item rest]|e] eqn:Hpop; [|exact Hs].
  apply py_pop_Ok in Hpop as (n & Hn & ->).
  intros x. simpl. rewrite elem_of_difference, elem_of_singleton.
  intros [Hx Hne]. eapply elem_of_delete_other; eauto.
Qed.

(** Removing an item that is in the list: the first position that holds it
    is emptied, the item leaves the selection, and the two events carry that
    position. *)
Lemma remove_run v s (i : nat) :
  py_index v (_list s) = Some i →
  remove v s =
    (with_emitted
       (emitted s ++ [(removing (Z.of_nat i), _list s);
                      (removed (Z.of_nat i) v, delete i (_list s))])
       (with_selection (selection s ∖ {[v]})
          (with_list (delete i (_list s)) s)),
     Ok tt).
Proof.
  intros Hi. unfold remove.
  erewrite bind_Ok by (rewrite index_run, Hi; reflexivity).
  rewrite delitem_run.
  rewrite (py_pop_nonneg i (_list s) v (py_index_lookup _ _ _ Hi)).
  reflexivity.
Qed.

Lemma remove_absent v s : v ∉ _list s → remove v s = (s, Raise ValueError).
Proof.
  intros Hv. apply py_index_None in Hv. unfold remove.
  erewrite bind_Raise by (rewrite index_run, Hv; reflexivity).
  reflexivity.
Qed.

Lemma keeps_remove v : keeps selection_in_list (remove v).
Proof.
  apply keeps_bind; [apply keeps_index|]. intros i. apply keeps_delitem.
Qed.

(** ** The methods of [SelectableEventedList] *)

Lemma keeps_insert (i : Z) v : keeps selection_in_list (insert i v).
Proof.
  apply keeps_bind; [apply keeps_EventedList_insert|intros _].
  apply keeps_get_any. intros s0.
  destruct (_activate_on_insert s0); [apply keeps_set_active|apply keeps_ret].
Qed.

Lemma keeps_select_all : keeps (selection_in_list (T:=T)) select_all.
Proof. apply keeps_get_any. intros s0. apply keeps_selection_update. Qed.

Lemma keeps_remove_each (todo : list T) (idx : Z) :
  keeps selection_in_list (remove_each todo idx).
Proof.
  revert idx. induction todo as [|i rest IH]; intros idx; simpl.
  - apply keeps_ret.
  - apply keeps_bind; [apply keeps_index|intros idx'].
    apply keeps_bind; [apply keeps_remove|intros _]. apply IH.
Qed.

Lemma keeps_remove_selected :
  keeps (selection_in_list (T:=T)) remove_selected.
Proof.
  apply keeps_get_any. intros s0.
  apply keeps_bind; [apply keeps_remove_each|intros idx].
  apply keeps_bind; [apply keeps_len|intros n].
  case_bool_decide; [|apply keeps_ret].
  apply keeps_bind; [apply keeps_getitem|intros x].
  apply keeps_selection_add.
Qed.

Lemma keeps_select_end (step : Z) :
  keeps (selection_in_list (T:=T)) (select_end step).
Proof.
  apply keeps_bind; [apply keeps_len|intros n].
  case_bool_decide; [|apply keeps_ret].
  apply keeps_bind; [apply keeps_getitem|intros x]. apply keeps_set_active.
Qed.

(** Making an item of the list the active one: it is then the only selected
    item and the active one; it becomes the current item too unless it was
    active already.  List and events are as before. *)
Lemma set_active_run v s :
  v ∈ _list s →
  set_active v s =
    (State (_list s) {[v]} (Some v)
       (if bool_decide (active s = Some v ∧ selection s = {[v]})
        then _current s else Some v)
       (_activate_on_insert s) (emitted s), Ok tt).
Proof.
  intros Hv. unfold set_active. run.
  case_bool_decide as Hact.
  - destruct Hact as [Ha Hs]. destruct s as [l X a c f e]. simpl in *.
    subst. reflexivity.
  - unfold selection_select_only, set_current. run.
    rewrite selection_add_run. simpl.
    case_bool_decide as Hsel.
    + simpl. unfold with_current. simpl. do 2 f_equal.
      apply elem_of_intersection in Hsel as [Hsel _].
      apply set_eq. intros x.
      rewrite elem_of_intersection, elem_of_singleton.
      split; [tauto|intros ->; auto].
    + rewrite bool_decide_eq_false_2 by (intros Hn; contradiction).
      simpl. unfold with_current. simpl. do 2 f_equal.
      apply set_eq. intros x.
      rewrite elem_of_union, elem_of_intersection, elem_of_singleton. tauto.
Qed.

Lemma insert_run (i : Z) v s :
  insert i v s =
    (if _activate_on_insert s then
       State (py_insert i v (_list s)) {[v]} (Some v)
         (if bool_decide (active s = Some v ∧ selection s = {[v]})
          then _current s else Some v)
         true
         (emitted s ++ [(inserting i, _list s);
                        (inserted i v, py_insert i v (_list s))])
     else
       with_emitted
         (emitted s ++ [(inserting i, _list s);
                        (inserted i v, py_insert i v (_list s))])
         (with_list (py_insert i v (_list s)) s),
     Ok tt).
Proof.
  unfold insert.
  erewrite bind_Ok by apply EventedList_insert_run.
  run. simpl.
  destruct (_activate_on_insert s) eqn:Hflag; [|reflexivity].
  rewrite set_active_run; simpl.
  - rewrite Hflag. reflexivity.
  - apply elem_of_py_insert. by left.
Qed.

(** C6.  For an index [0 <= i <= len(list)], after [insert(i, value)] the
    element at position [i] is [value], the elements before [i] are the
    former elements before [i] in their order, and the elements from [i+1]
    on are the former elements from [i] on in their order. *)
Theorem insert_keeps_order (i : Z) v s :
  0 ≤ i ≤ py_len (_list s) →
  (insert i v s).2 = Ok tt ∧
  _list (insert i v s).1 !! Z.to_nat i = Some v ∧
  take (Z.to_nat i) (_list (insert i v s).1) = take (Z.to_nat i) (_list s) ∧
  drop (S (Z.to_nat i)) (_list (insert i v s).1) = drop (Z.to_nat i) (_list s).
Proof.
  intros Hi.
  assert (Hl : _list (insert i v s).1
               = (take (Z.to_nat i) (_list s)
                    ++ v :: drop (Z.to_nat i) (_list s))%list).
  { rewrite insert_run. simpl.
    destruct (_activate_on_insert s); simpl; by apply py_insert_nonneg. }
  assert (Hlen : length (take (Z.to_nat i) (_list s)) = Z.to_nat i).
  { rewrite length_take. unfold py_len in Hi. lia. }
  split; [rewrite insert_run; reflexivity|]. rewrite Hl.
  split; [|split].
  - rewrite lookup_app_r by lia. rewrite Hlen, Nat.sub_diag. reflexivity.
  - rewrite take_app_length' by (symmetry; exact Hlen). reflexivity.
  - change (v :: drop (Z.to_nat i) (_list s))
      with ([v] ++ drop (Z.to_nat i) (_list s))%list.
    rewrite app_assoc. rewrite drop_app_length'; [reflexivity|].
    rewrite length_app, Hlen. simpl. lia.
Qed.

(** C9.  With [_activate_on_insert] at its default [True], after
    [insert(index, value)] the value is the active item and the selection
    is exactly [{value}]. *)
Theorem insert_activates (i : Z) v s :
  _activate_on_insert s = true →
  (insert i v s).2 = Ok tt ∧
  active (insert i v s).1 = Some v ∧
  selection (insert i v s).1 = {[v]}.
Proof.
  intros Hflag. rewrite insert_run, Hflag. simpl. auto.
Qed.

(** With nothing selected the loop of [remove_selected] does not run, and
    [idx] stays 0. *)
Lemma remove_selected_empty_run s :
  selection s = ∅ →
  remove_selected s =
    match _list s with
    | [] => (s, Ok tt)
    | x :: _ => (with_selection {[x]} s, Ok tt)
    end.
Proof.
  intros Hsel. unfold remove_selected. run.
  rewrite Hsel, elements_empty. cbn [remove_each]. run.
  rewrite len_run. change (Z.max 0 (0 - 1)) with (Z.of_nat 0).
  destruct (_list s) as [|x0 l] eqn:Hl.
  - rewrite bool_decide_eq_false_2 by (unfold py_len; simpl; lia).
    reflexivity.
  - rewrite bool_decide_eq_true_2 by (unfold py_len; simpl; lia).
    rewrite getitem_run, Hl.
    rewrite (py_getitem_nonneg 0 (x0 :: l) x0 eq_refl).
    rewrite selection_add_run, Hsel, Hl.
    rewrite bool_decide_eq_false_2 by apply not_elem_of_empty.
    rewrite bool_decide_eq_false_2 by (intros Hn; apply Hn; by left).
    rewrite (left_id_L ∅ (∪)). reflexivity.
Qed.

(** C10.  With an empty selection, [remove_selected] removes nothing from
    the list, and when the list is not empty it selects the element at
    index 0. *)
Theorem remove_selected_nothing_selected s :
  selection s = ∅ →
  (remove_selected s).2 = Ok tt ∧
  _list (remove_selected s).1 = _list s ∧
  emitted (remove_selected s).1 = emitted s ∧
  (∀ x, _list s !! 0%nat = Some x → selection (remove_selected s).1 = {[x]}) ∧
  (_list s = [] → remove_selected s = (s, Ok tt)).
Proof.
  intros Hsel. rewrite (remove_selected_empty_run s Hsel).
  destruct (_list s) as [|x0 l] eqn:Hl; simpl.
  - repeat split; auto; discriminate.
  - rewrite Hl. repeat split; try reflexivity; try discriminate.
    intros x [= <-]. reflexivity.
Qed.

(** ** Every change of the list is notified *)

Lemma notified_app (l l1 l2 : list T) evs1 evs2 :
  notified l evs1 l1 → notified l1 evs2 l2 → notified l (evs1 ++ evs2) l2.
Proof.
  induction 1 as [l|l i v evs l' _ IH|l i v evs l' Hi _ IH]; intros H2; simpl.
  - exact H2.
  - apply notified_insert. by apply IH.
  - apply notified_remove; [exact Hi|]. by apply IH.
Qed.

Lemma notifies_bind {A B : Type} (m : M (T:=T) A) (f : A → M B) :
  notifies m → (∀ a, notifies (f a)) → notifies (m ≫= f).
Proof.
  intros Hm Hf s. destruct (Hm s) as (evs1 & He1 & Hn1).
  unfold mbind, M_bind. destruct (m s) as [s1 [a|e]]; simpl in *.
  - destruct (Hf a s1) as (evs2 & He2 & Hn2).
    exists (evs1 ++ evs2)%list. split.
    + rewrite He2, He1, app_assoc. reflexivity.
    + eapply notified_app; eassumption.
  - exists evs1. auto.
Qed.

(** A step that leaves list and events alone has nothing to notify. *)
Lemma notifies_silent {A : Type} (m : M (T:=T) A) :
  (∀ s, _list (m s).1 = _list s ∧ emitted (m s).1 = emitted s) →
  notifies m.
Proof.
  intros Hm s. destruct (Hm s) as [Hl He]. exists [].
  rewrite Hl, He, app_nil_r. split; [reflexivity|constructor].
Qed.

Lemma notifies_ret {A : Type} (a : A) : notifies (T:=T) (mret a).
Proof. apply notifies_silent. intros s. split; reflexivity. Qed.

Lemma notifies_get_any {A : Type} (f : state (T:=T) → M A) :
  (∀ s0, notifies (f s0)) → notifies (get ≫= f).
Proof. intros Hf s. apply Hf. Qed.

Lemma notifies_len : notifies (T:=T) len.
Proof. apply notifies_silent. intros s. split; reflexivity. Qed.

Lemma notifies_getitem (i : Z) : notifies (T:=T) (getitem i).
Proof. apply notifies_silent. intros s. split; reflexivity. Qed.

Lemma notifies_index v : notifies (index v).
Proof.
  apply notifies_silent. intros s. rewrite index_run.
  destruct (py_index v (_list s)); split; reflexivity.
Qed.

Lemma notifies_set_current (c : option T) : notifies (set_current c).
Proof. apply notifies_silent. intros s. split; reflexivity. Qed.

Lemma notifies_selection_add v : notifies (selection_add v).
Proof.
  apply notifies_silent. intros s. rewrite selection_add_run.
  repeat case_bool_decide; split; reflexivity.
Qed.

Lemma notifies_selection_discard v : notifies (selection_discard v).
Proof. apply notifies_silent. intros s. split; reflexivity. Qed.

Lemma notifies_selection_remove v : notifies (selection_remove v).
Proof.
  apply notifies_get_any. intros s0. case_bool_decide.
  - apply notifies_silent. intros s. split; reflexivity.
  - apply notifies_selection_discard.
Qed.

Lemma notifies_set_active v : notifies (set_active v).
Proof.
  apply notifies_get_any. intros s0. case_bool_decide; [apply notifies_ret|].
  apply notifies_bind;
    [apply notifies_silent; intros s; split; reflexivity|intros _].
  apply notifies_bind; [|intros _; apply notifies_set_current].
  apply notifies_bind; [|intros _; apply notifies_selection_add].
  apply notifies_silent. intros s. split; reflexivity.
Qed.

Lemma notifies_selection_update (others : list T) :
  notifies (selection_update others).
Proof.
  apply notifies_get_any. intros s0. apply notifies_bind.
  - apply notifies_silent. intros s. rewrite hook_each_run.
    case_bool_decide; split; reflexivity.
  - intros to_add. apply notifies_silent. intros s. split; reflexivity.
Qed.

Lemma notifies_EventedList_insert (i : Z) v :
  notifies (EventedList_insert i v).
Proof.
  intros s. rewrite EventedList_insert_run. simpl.
  eexists. split; [reflexivity|].
  apply notified_insert. constructor.
Qed.

Lemma notifies_remove v : notifies (remove v).
Proof.
  intros s. destruct (py_index v (_list s)) as [i|] eqn:Hi.
  - rewrite (remove_run v s i Hi). simpl.
    eexists. split; [reflexivity|].
    apply notified_remove; [by apply py_index_lookup|constructor].
  - apply py_index_None in Hi. rewrite (remove_absent v s Hi).
    exists []. rewrite app_nil_r. split; [reflexivity|constructor].
Qed.

Lemma notifies_insert (i : Z) v : notifies (insert i v).
Proof.
  apply notifies_bind; [apply notifies_EventedList_insert|intros _].
  apply notifies_get_any. intros s0.
  destruct (_activate_on_insert s0);
    [apply notifies_set_active|apply notifies_ret].
Qed.

Lemma notifies_select_all : notifies (T:=T) select_all.
Proof. apply notifies_get_any. intros s0. apply notifies_selection_update. Qed.

Lemma notifies_remove_each (todo : list T) (idx : Z) :
  notifies (remove_each todo idx).
Proof.
  revert idx. induction todo as [|i rest IH]; intros idx; simpl.
  - apply notifies_ret.
  - apply notifies_bind; [apply notifies_index|intros idx'].
    apply notifies_bind; [apply notifies_remove|intros _]. apply IH.
Qed.

Lemma notifies_remove_selected : notifies (T:=T) remove_selected.
Proof.
  apply notifies_get_any. intros s0.
  apply notifies_bind; [apply notifies_remove_each|intros idx].
  apply notifies_bind; [apply notifies_len|intros n].
  case_bool_decide; [|apply notifies_ret].
  apply notifies_bind; [apply notifies_getitem|intros x].
  apply notifies_selection_add.
Qed.

Lemma notifies_select_end (step : Z) : notifies (T:=T) (select_end step).
Proof.
  apply notifies_bind; [apply notifies_len|intros n].
  case_bool_decide; [|apply notifies_ret].
  apply notifies_bind; [apply notifies_getitem|intros x].
  apply notifies_set_active.
Qed.

End MethodFacts.

Section SelectNextFacts.
Context {T : Type} `{Countable T}.
Variable truthy : T → bool.
Implicit Types (s : state (T:=T)) (x v : T).

Lemma keeps_select_next (step : Z) (shift : bool) :
  keeps selection_in_list (select_next truthy step shift).
Proof.
  apply keeps_get_any. intros s0.
  destruct (_ && _); [|apply keeps_select_end].
  destruct (_current s0) as [cur|]; [|apply keeps_ret].
  apply keeps_bind; [apply keeps_index|intros i].
  apply keeps_bind; [apply keeps_len|intros n].
  destruct (_ && _); [|apply keeps_ret].
  apply keeps_bind; [apply keeps_getitem|intros next_layer].
  destruct shift; [|apply keeps_set_active].
  apply keeps_get_any. intros s1.
  case_bool_decide.
  - apply keeps_bind; [apply keeps_selection_remove|intros _].
    apply keeps_set_current.
  - apply keeps_bind; [apply keeps_selection_add|intros _].
    apply keeps_set_current.
Qed.

Lemma notifies_select_next (step : Z) (shift : bool) :
  notifies (select_next truthy step shift).
Proof.
  apply notifies_get_any. intros s0.
  destruct (_ && _); [|apply notifies_select_end].
  destruct (_current s0) as [cur|]; [|apply notifies_ret].
  apply notifies_bind; [apply notifies_index|intros i].
  apply notifies_bind; [apply notifies_len|intros n].
  destruct (_ && _); [|apply notifies_ret].
  apply notifies_bind; [apply notifies_getitem|intros next_layer].
  destruct shift; [|apply notifies_set_active].
  apply notifies_get_any. intros s1.
  case_bool_decide.
  - apply notifies_bind; [apply notifies_selection_remove|intros _].
    apply notifies_set_current.
  - apply notifies_bind; [apply notifies_selection_add|intros _].
    apply notifies_set_current.
Qed.

(** C7.  An insertion at index [i] emits [inserting (i)], received while the
    list is still as before, and then [inserted (i, value)], received when
    the value is in; the removal of an item whose first position is [i]
    emits [removing (i)], received while the item is still at [i], and then
    [removed (i, value)], received when it is gone.  No method of the class
    changes the list otherwise: what [insert], [remove], [remove_selected],
    [select_all], [select_next] and [select_previous] emit is a run of such
    pairs that leads from the list before the call to the list after it. *)
Theorem mutations_emit_events s :
  (∀ (i : Z) v,
     emitted (insert i v s).1
     = (emitted s ++ [(inserting i, _list s);
                      (inserted i v, _list (insert i v s).1)])%list ∧
     _list (insert i v s).1 = py_insert i v (_list s)) ∧
  (∀ v (i : nat),
     py_index v (_list s) = Some i →
     emitted (remove v s).1
     = (emitted s ++ [(removing (Z.of_nat i), _list s);
                      (removed (Z.of_nat i) v, _list (remove v s).1)])%list ∧
     _list s !! i = Some v ∧
     _list (remove v s).1 = delete i (_list s)) ∧
  (∀ m : M (T:=T) unit,
     (∃ (i : Z) v, m = insert i v) ∨ (∃ v, m = remove v) ∨
     m = remove_selected ∨ m = select_all ∨
     (∃ (step : Z) (shift : bool), m = select_next truthy step shift) ∨
     (∃ shift : bool, m = select_previous truthy shift) →
     ∃ evs, emitted (m s).1 = (emitted s ++ evs)%list ∧
            notified (_list s) evs (_list (m s).1)).
Proof.
  split; [|split].
  - intros i v. rewrite insert_run.
    destruct (_activate_on_insert s); simpl; split; reflexivity.
  - intros v i Hi. rewrite (remove_run v s i Hi). simpl.
    split; [reflexivity|]. split; [|reflexivity].
    by apply py_index_lookup.
  - intros m [(i & v & ->)|[(v & ->)|[->|[->|[(step & shift & ->)
                                              |(shift & ->)]]]]].
    + apply notifies_insert.
    + apply notifies_remove.
    + apply notifies_remove_selected.
    + apply notifies_select_all.
    + apply notifies_select_next.
    + apply notifies_select_next.
Qed.

(** C3.  Each of [insert], [remove], [remove_selected], [select_all],
    [select_next], [select_previous] and [selection.add] leaves the
    selection a subset of the items in the list, whether it returns or
    raises; selecting an item that is not in the list raises [ValueError]
    and changes nothing; removing an item of the list takes it out of the
    selection. *)
Theorem selection_stays_in_list s :
  selection_in_list s →
  (∀ (i : Z) v, selection_in_list (insert i v s).1) ∧
  (∀ v, selection_in_list (remove v s).1) ∧
  selection_in_list (remove_selected s).1 ∧
  selection_in_list (select_all s).1 ∧
  (∀ (step : Z) (shift : bool),
     selection_in_list (select_next truthy step shift s).1) ∧
  (∀ shift : bool, selection_in_list (select_previous truthy shift s).1) ∧
  (∀ v, selection_in_list (selection_add v s).1) ∧
  (∀ v, v ∉ _list s → selection_add v s = (s, Raise ValueError)) ∧
  (∀ v, v ∈ _list s →
     (remove v s).2 = Ok tt ∧ v ∉ selection (remove v s).1).
Proof.
  intros Hs.
  split; [intros i v; by apply keeps_insert|].
  split; [intros v; by apply keeps_remove|].
  split; [by apply keeps_remove_selected|].
  split; [by apply keeps_select_all|].
  split; [intros step shift; by apply keeps_select_next|].
  split; [intros shift; by apply keeps_select_next|].
  split; [intros v; by apply keeps_selection_add|].
  split.
  - intros v Hv. rewrite selection_add_run.
    rewrite bool_decide_eq_false_2 by (intros Hsel; apply Hv, Hs, Hsel).
    rewrite bool_decide_eq_true_2 by exact Hv. reflexivity.
  - intros v Hv. destruct (py_index_elem v (_list s) Hv) as [i Hi].
    rewrite (remove_run v s i Hi). simpl. split; [reflexivity|].
    rewrite elem_of_difference, elem_of_singleton. tauto.
Qed.

End SelectNextFacts.

(** Runs on the list [1; 2; 3].  Inserting 7 at position 1 makes 7 the only
    selected item.  After 9 is inserted and 2 selected as well,
    [remove_selected] takes 2 and 9 out, with the events of each removal,
    and selects what is left at the head.  [select_next] without a current
    item selects the last item; with shift, stepping back twice extends the
    selection to all three. *)
Example insert_run_example :
  let r := insert 1 7%nat (unselected [1; 2; 3]%nat) in
  (_list r.1, elements (selection r.1), active r.1, emitted r.1, r.2)
  = ([1; 7; 2; 3]%nat, [7%nat], Some 7%nat,
     [(inserting 1, [1; 2; 3]%nat); (inserted 1 7%nat, [1; 7; 2; 3]%nat)],
     Ok tt).
Proof. reflexivity. Qed.

Example remove_selected_run_example :
  let r := (insert 0 9%nat;; selection_add 2%nat;; remove_selected)
             (unselected [1; 2; 3]%nat) in
  (_list r.1, elements (selection r.1), emitted r.1, r.2)
  = ([1; 3]%nat, [1%nat],
     [(inserting 0, [1; 2; 3]%nat); (inserted 0 9%nat, [9; 1; 2; 3]%nat);
      (removing 2, [9; 1; 2; 3]%nat); (removed 2 2%nat, [9; 1; 3]%nat);
      (removing 0, [9; 1; 3]%nat); (removed 0 9%nat, [1; 3]%nat)],
     Ok tt).
Proof. vm_compute. reflexivity. Qed.

Example select_next_run_example :
  let r := (select_next nat_truthy 1 false;;
            select_next nat_truthy (-1) true;;
            select_next nat_truthy (-1) true)
             (unselected [1; 2; 3]%nat) in
  (selection r.1, _current r.1, r.2)
  = ({[1%nat; 2%nat; 3%nat]} : gset nat, Some 1%nat, Ok tt).
Proof. vm_compute. reflexivity. Qed.

Lemma selection_stays_in_list_witness :
  selection_add 5%nat (unselected [1; 2; 3]%nat)
  = (unselected [1; 2; 3]%nat, Raise ValueError).
Proof.
  apply (selection_stays_in_list nat_truthy (unselected [1; 2; 3]%nat)).
  - intros x Hx. simpl in Hx. by apply not_elem_of_empty in Hx.
  - simpl. rewrite !not_elem_of_cons. repeat split; try lia.
    apply not_elem_of_nil.
Defined.

Lemma insert_keeps_order_witness :
  _list (insert 1 7%nat (unselected [1; 2; 3]%nat)).1 !! 1%nat = Some 7%nat.
Proof.
  apply (insert_keeps_order 1 7%nat (unselected [1; 2; 3]%nat)).
  unfold py_len. simpl. lia.
Defined.

Lemma mutations_emit_events_witness :
  emitted (remove 2%nat (unselected [1; 2; 3]%nat)).1
  = [(removing 1, [1; 2; 3]%nat);
     (removed 1 2%nat, _list (remove 2%nat (unselected [1; 2; 3]%nat)).1)].
Proof.
  apply (mutations_emit_events nat_truthy (unselected [1; 2; 3]%nat))
    with (i := 1%nat).
  reflexivity.
Defined.

Lemma insert_activates_witness :
  selection (insert 0 7%nat (unselected [1; 2; 3]%nat)).1 = {[7%nat]}.
Proof.
  apply (insert_activates 0 7%nat (unselected [1; 2; 3]%nat)).
  reflexivity.
Defined.

Lemma remove_selected_nothing_selected_witness :
  _list (remove_selected (unselected [4; 5]%nat)).1 = [4; 5]%nat.
Proof.
  apply (remove_selected_nothing_selected (unselected [4; 5]%nat)).
  reflexivity.
Defined.

End SelectableListFacts.

(** * Further properties of the OpenGL utilities *)

Module GLContextFacts.
Import GL.

Section ContextFacts.
Context {World Canvas : Type}.
Variable get_current_canvas : World → option Canvas.
Variable Canvas_hidden : World → Canvas * World.
Variable Canvas_close : Canvas → World → World.
Variable glGetParameter : Z → World → gl_value * World.
Variable GL_MAX_TEXTURE_SIZE : Z.
Variable GL_EXTENSIONS : Z.

(** With a current canvas the context does nothing around its body. *)
Lemma _opengl_context_current {A : Type} (body : World → A * World) w c :
  get_current_canvas w = Some c →
  _opengl_context get_current_canvas Canvas_hidden Canvas_close body w
  = body w.
Proof.
  intros Hc. unfold _opengl_context. rewrite Hc.
  destruct (body w) as [a w']. reflexivity.
Qed.

(** Without one, a hidden canvas is made before the body and closed after
    it. *)
Lemma _opengl_context_temporary {A : Type} (body : World → A * World) w :
  get_current_canvas w = None →
  _opengl_context get_current_canvas Canvas_hidden Canvas_close body w
  = ((body (Canvas_hidden w).2).1,
     Canvas_close (Canvas_hidden w).1 (body (Canvas_hidden w).2).2).
Proof.
  intros Hc. unfold _opengl_context. rewrite Hc.
  destruct (Canvas_hidden w) as [c w1]. simpl.
  destruct (body w1) as [a w2]. reflexivity.
Qed.

(** X1.  When a canvas is current at the call and still current after the
    first query, the uncached [get_max_texture_sizes] is just the two GL
    queries, one after the other: no canvas is created and none is
    closed. *)
Theorem get_max_texture_sizes_reuses_canvas (w : World) (c c' : Canvas) :
  get_current_canvas w = Some c →
  get_current_canvas (glGetParameter GL_MAX_TEXTURE_SIZE w).2 = Some c' →
  get_max_texture_sizes_body get_current_canvas Canvas_hidden Canvas_close
    glGetParameter GL_MAX_TEXTURE_SIZE w
  = ((if is_empty_tuple (glGetParameter GL_MAX_TEXTURE_SIZE w).1 then None
      else Some (glGetParameter GL_MAX_TEXTURE_SIZE w).1,
      if is_empty_tuple
           (glGetParameter 32883 (glGetParameter GL_MAX_TEXTURE_SIZE w).2).1
      then None
      else Some
             (glGetParameter 32883 (glGetParameter GL_MAX_TEXTURE_SIZE w).2).1),
     (glGetParameter 32883 (glGetParameter GL_MAX_TEXTURE_SIZE w).2).2).
Proof.
  intros Hc Hc'. unfold get_max_texture_sizes_body.
  rewrite (_opengl_context_current _ w c Hc).
  destruct (glGetParameter GL_MAX_TEXTURE_SIZE w) as [v2 w1]. simpl in *.
  rewrite (_opengl_context_current _ w1 c' Hc').
  destruct (glGetParameter 32883 w1) as [v3 w2]. reflexivity.
Qed.

(** X2.  When no canvas is current at the call, nor after the first
    temporary canvas has been closed, the uncached [get_max_texture_sizes]
    makes a hidden canvas for each of its two queries: each is created
    before its query and closed right after it, the first before the second
    is created. *)
Theorem get_max_texture_sizes_two_canvases (w : World) :
  let c1 := (Canvas_hidden w).1 in
  let q2 := glGetParameter GL_MAX_TEXTURE_SIZE (Canvas_hidden w).2 in
  let w2 := Canvas_close c1 q2.2 in
  let c2 := (Canvas_hidden w2).1 in
  let q3 := glGetParameter 32883 (Canvas_hidden w2).2 in
  get_current_canvas w = None →
  get_current_canvas w2 = None →
  get_max_texture_sizes_body get_current_canvas Canvas_hidden Canvas_close
    glGetParameter GL_MAX_TEXTURE_SIZE w
  = ((if is_empty_tuple q2.1 then None else Some q2.1,
      if is_empty_tuple q3.1 then None else Some q3.1),
     Canvas_close c2 q3.2).
Proof.
  intros c1 q2 w2 c2 q3 Hc Hc2. unfold get_max_texture_sizes_body.
  rewrite (_opengl_context_temporary _ w Hc). fold c1 q2 w2.
  rewrite (_opengl_context_temporary _ w2 Hc2). reflexivity.
Qed.

Lemma repeated_extension_calls_hit (r : gl_value) (ws : list World) :
  repeated_extension_calls get_current_canvas Canvas_hidden Canvas_close
    glGetParameter GL_EXTENSIONS (Some r) ws
  = replicate (length ws) r.
Proof.
  induction ws as [|w ws IH]; [reflexivity|].
  simpl. f_equal. exact IH.
Qed.

(** X3.  The first call of [get_gl_extensions] returns what the
    [GL_EXTENSIONS] query gives inside an OpenGL context; every later call
    returns that same value, whatever the world has become, and leaves the
    world as it finds it. *)
Theorem get_gl_extensions_cached (w : World) (ws : list World) :
  let first :=
    (_opengl_context get_current_canvas Canvas_hidden Canvas_close
       (glGetParameter GL_EXTENSIONS) w).1 in
  repeated_extension_calls get_current_canvas Canvas_hidden Canvas_close
    glGetParameter GL_EXTENSIONS None (w :: ws)
  = replicate (S (length ws)) first ∧
  ∀ w', get_gl_extensions get_current_canvas Canvas_hidden Canvas_close
          glGetParameter GL_EXTENSIONS (Some first) w'
        = (first, (Some first, w')).
Proof.
  intros first. split; [|reflexivity].
  unfold repeated_extension_calls, get_gl_extensions, lru_cache,
    get_gl_extensions_body, first.
  destruct (_opengl_context _ _ _ (glGetParameter GL_EXTENSIONS) w)
    as [r w']. simpl. f_equal. apply repeated_extension_calls_hit.
Qed.

End ContextFacts.

(** X4.  Every entry of [BLENDING_MODES] is a complete GL state: it sets
    [depth_test], [blend] and [cull_face], the last always to [False]; a
    mode without blending gives neither [blend_func] nor [blend_equation];
    a mode that blends gives a [blend_equation], and gives a [blend_func] of
    four factors exactly when that equation is [func_add]. *)
Theorem BLENDING_MODES_complete (name : string) (mode : gmap string setting) :
  BLENDING_MODES !! name = Some mode →
  mode !! "cull_face" = Some (SBool false) ∧
  (∃ d, mode !! "depth_test" = Some (SBool d)) ∧
  ∃ b, mode !! "blend" = Some (SBool b) ∧
       if b then
         ∃ eq, mode !! "blend_equation" = Some (SStr eq) ∧
               (eq = "func_add" →
                ∃ f, mode !! "blend_func" = Some (STuple f) ∧ length f = 4%nat) ∧
               (eq ≠ "func_add" → mode !! "blend_func" = None)
       else mode !! "blend_func" = None ∧ mode !! "blend_equation" = None.
Proof.
  intros Hm. unfold BLENDING_MODES in Hm.
  repeat (apply lookup_insert_Some in Hm as [[_ <-]|[_ Hm]];
          [rewrite !lookup_insert, ?lookup_empty; simpl;
           (split; [reflexivity|]); (split; [eexists; reflexivity|]);
           first
             [ exists false; split; [reflexivity|]; split; reflexivity
             | exists true; (split; [reflexivity|]);
               eexists; (split; [reflexivity|]);
               (split;
                 [intros E; try discriminate E; eexists; split; reflexivity
                 |intros E; try reflexivity; exfalso; apply E; reflexivity]) ]
          |]).
  rewrite lookup_empty in Hm. discriminate Hm.
Qed.

Lemma get_max_texture_sizes_reuses_canvas_witness :
  get_max_texture_sizes_body toy_current toy_canvas toy_close toy_query 3379
    (ToyWorld (Some 0%nat) [Created 0%nat])
  = ((Some (GLInt 16384), None),
     ToyWorld (Some 0%nat) [Created 0%nat; Queried 3379; Queried 32883]).
Proof.
  apply (get_max_texture_sizes_reuses_canvas toy_current toy_canvas toy_close
           toy_query 3379 (ToyWorld (Some 0%nat) [Created 0%nat]) 0%nat 0%nat);
    reflexivity.
Defined.

Lemma get_max_texture_sizes_two_canvases_witness :
  get_max_texture_sizes_body toy_current toy_canvas toy_close toy_query 3379
    (ToyWorld None [])
  = ((Some (GLInt 16384), None),
     ToyWorld None [Created 0%nat; Queried 3379; Closed 0%nat;
                    Created 3%nat; Queried 32883; Closed 3%nat]).
Proof.
  apply (get_max_texture_sizes_two_canvases toy_current toy_canvas toy_close
           toy_query 3379 (ToyWorld None [])); reflexivity.
Defined.

Lemma BLENDING_MODES_complete_witness :
  <["depth_test" := SBool false]>
    (<["cull_face" := SBool false]>
    (<["blend" := SBool true]>
    (<["blend_equation" := SStr "min"]> (∅ : gmap string setting))))
  !! "cull_face" = Some (SBool false).
Proof.
  apply (BLENDING_MODES_complete "minimum"). reflexivity.
Defined.

End GLContextFacts.

(** * Further properties of the selectable list *)

Module SelectableListMoreFacts.
Import SelectableList SelectableListFacts.

Ltac run_method :=
  cbv beta iota zeta delta [mbind M_bind mret M_ret get modify raise lift].

Section PyListMoreFacts.
Context {T : Type} `{EqDecision T}.
Implicit Types (l : list T) (x v : T).

Lemma py_getitem_elem_of (j : Z) l x : py_getitem j l = Ok x → x ∈ l.
Proof.
  unfold py_getitem.
  destruct (_ && _); [|discriminate].
  destruct (l !! _) as [y|] eqn:E; [|discriminate].
  intros [= <-]. eapply list_elem_of_lookup_2. exact E.
Qed.

Lemma py_getitem_in_range (j : Z) l x :
  0 ≤ j → l !! Z.to_nat j = Some x → py_getitem j l = Ok x.
Proof.
  intros Hj Hl. rewrite <- (Z2Nat.id j Hj). by apply py_getitem_nonneg.
Qed.

Lemma py_getitem_last l x : last l = Some x → py_getitem (-1) l = Ok x.
Proof.
  intros Hl. rewrite last_lookup in Hl.
  pose proof (lookup_lt_Some _ _ _ Hl) as Hlt.
  unfold py_getitem, py_len.
  rewrite (bool_decide_eq_true_2 (-1 < 0)) by lia.
  rewrite (bool_decide_eq_true_2 (0 ≤ -1 + Z.of_nat (length l))) by lia.
  rewrite (bool_decide_eq_true_2 (-1 + Z.of_nat (length l)
                                  < Z.of_nat (length l))) by lia.
  simpl. replace (Z.to_nat (-1 + Z.of_nat (length l))) with (pred (length l))
    by lia.
  rewrite Hl. reflexivity.
Qed.

Lemma py_getitem_head l x : head l = Some x → py_getitem 0 l = Ok x.
Proof.
  intros Hl. apply (py_getitem_nonneg 0 l x).
  destruct l; [discriminate|exact Hl].
Qed.

(** In a list without repetition an item is found where it is. *)
Lemma py_index_NoDup l (n : nat) x :
  NoDup l → l !! n = Some x → py_index x l = Some n.
Proof.
  intros Hnd Hn. destruct (py_index x l) as [m|] eqn:Hm.
  - f_equal. eapply NoDup_lookup; eauto using py_index_lookup.
  - apply py_index_None in Hm. exfalso. apply Hm.
    eapply list_elem_of_lookup_2. exact Hn.
Qed.

Lemma py_index_lt v l (i : nat) :
  py_index v l = Some i → (i < length l)%nat.
Proof. intros Hi. eapply lookup_lt_Some. by apply py_index_lookup. Qed.

End PyListMoreFacts.

Section SelectNextMoreFacts.
Context {T : Type} `{Countable T}.
Variable truthy : T → bool.
Implicit Types (s : state (T:=T)) (x y v cur : T).

(** [select_next] from a usable current item that is in the list. *)
Lemma select_next_from_current s cur (i : nat) (step : Z) (shift : bool) :
  selection s ≠ ∅ → _current s = Some cur → truthy cur = true →
  py_index cur (_list s) = Some i →
  select_next truthy step shift s =
    if bool_decide (py_len (_list s) > Z.of_nat i + step)
       && bool_decide (Z.of_nat i + step >= 0)
    then
      match py_getitem (Z.of_nat i + step) (_list s) with
      | Ok y =>
          if shift then
            if bool_decide (y ∈ selection s)
            then (selection_remove cur;; set_current (Some y)) s
            else (selection_add y;; set_current (Some y)) s
          else set_active y s
      | Raise e => (s, Raise e)
      end
    else (s, Ok tt).
Proof.
  intros Hsel Hcur Htr Hi. unfold select_next. run_method.
  rewrite Hcur. simpl. rewrite Htr.
  rewrite (bool_decide_eq_true_2 (selection s ≠ ∅)) by exact Hsel. simpl.
  rewrite index_run, Hi. rewrite ?len_run.
  destruct (_ && _); [|reflexivity].
  rewrite ?getitem_run.
  destruct (py_getitem _ _) as [y|e]; [|reflexivity].
  destruct shift; [|reflexivity].
  destruct (bool_decide (y ∈ selection s)); reflexivity.
Qed.

(** [select_next] without a usable current item. *)
Lemma select_next_no_current s (step : Z) (shift : bool) :
  selection s = ∅ ∨ truthy_item truthy (_current s) = false →
  select_next truthy step shift s = select_end step s.
Proof.
  intros Hno. unfold select_next. run_method.
  destruct Hno as [Hsel|Hcur].
  - rewrite (bool_decide_eq_false_2 (selection s ≠ ∅)); [reflexivity|].
    intros Hne. contradiction.
  - rewrite Hcur, andb_false_r. reflexivity.
Qed.

Lemma select_end_run s (step : Z) :
  select_end step s =
    if bool_decide (py_len (_list s) > 0) then
      match py_getitem (if bool_decide (step > 0) then -1 else 0) (_list s) with
      | Ok x => set_active x s
      | Raise e => (s, Raise e)
      end
    else (s, Ok tt).
Proof.
  unfold select_end. run_method. rewrite len_run.
  destruct (bool_decide (py_len (_list s) > 0)); [|reflexivity].
  rewrite getitem_run. destruct (py_getitem _ _); reflexivity.
Qed.

(** What assigning the active item comes to for an item of the list, when
    the active item is in step with the selection. *)
Lemma set_active_in_step v s :
  v ∈ _list s →
  (active s = Some v → selection s = {[v]}) →
  (set_active v s).2 = Ok tt ∧
  _list (set_active v s).1 = _list s ∧
  emitted (set_active v s).1 = emitted s ∧
  selection (set_active v s).1 = {[v]} ∧
  active (set_active v s).1 = Some v ∧
  (active s = Some v → set_active v s = (s, Ok tt)) ∧
  (active s ≠ Some v → _current (set_active v s).1 = Some v).
Proof.
  intros Hv Hstep. rewrite (set_active_run v s Hv). simpl.
  repeat (split; [reflexivity|]). split.
  - intros Ha. rewrite bool_decide_eq_true_2 by auto.
    destruct s as [l X a c f e]. simpl in *.
    rewrite (Hstep Ha), Ha. reflexivity.
  - intros Ha. rewrite bool_decide_eq_false_2 by tauto. reflexivity.
Qed.

(** X5.  Stepping without shift: when the current item is usable (the
    selection is not empty and the item is truthy), sits first at position
    [i], and position [i + step] exists, [select_next] makes the item [y]
    there the active item and the only selected one, and leaves list and
    events alone.  The active item being in step with the selection, this
    changes nothing at all when [y] is active already, the current item
    included; otherwise [y] becomes the current item too. *)
Theorem select_next_moves s cur (i : nat) (step : Z) y :
  selection s ≠ ∅ → _current s = Some cur → truthy cur = true →
  py_index cur (_list s) = Some i →
  0 ≤ Z.of_nat i + step →
  _list s !! Z.to_nat (Z.of_nat i + step) = Some y →
  (active s = Some y → selection s = {[y]}) →
  (select_next truthy step false s).2 = Ok tt ∧
  _list (select_next truthy step false s).1 = _list s ∧
  emitted (select_next truthy step false s).1 = emitted s ∧
  selection (select_next truthy step false s).1 = {[y]} ∧
  active (select_next truthy step false s).1 = Some y ∧
  (active s = Some y → select_next truthy step false s = (s, Ok tt)) ∧
  (active s ≠ Some y →
   _current (select_next truthy step false s).1 = Some y).
Proof.
  intros Hsel Hcur Htr Hi Hge Hy Hstep.
  rewrite (select_next_from_current s cur i step false Hsel Hcur Htr Hi).
  pose proof (lookup_lt_Some _ _ _ Hy) as Hlt.
  rewrite (bool_decide_eq_true_2 (py_len (_list s) > Z.of_nat i + step))
    by (unfold py_len; lia).
  rewrite (bool_decide_eq_true_2 (Z.of_nat i + step >= 0)) by lia. simpl.
  rewrite (py_getitem_in_range _ _ y Hge Hy).
  apply set_active_in_step; [|exact Hstep].
  eapply list_elem_of_lookup_2. exact Hy.
Qed.

(** X6.  No wrap-around: when the current item is usable and sits first at
    position [i], but [i + step] is before the start or beyond the end of
    the list, [select_next] (hence [select_previous] at the first item)
    returns without changing anything, with or without shift. *)
Theorem select_next_stops_at_ends s cur (i : nat) (step : Z) (shift : bool) :
  selection s ≠ ∅ → _current s = Some cur → truthy cur = true →
  py_index cur (_list s) = Some i →
  ¬ (0 ≤ Z.of_nat i + step < py_len (_list s)) →
  select_next truthy step shift s = (s, Ok tt).
Proof.
  intros Hsel Hcur Htr Hi Hout.
  rewrite (select_next_from_current s cur i step shift Hsel Hcur Htr Hi).
  destruct (bool_decide (py_len (_list s) > Z.of_nat i + step)) eqn:E1;
    [|reflexivity].
  destruct (bool_decide (Z.of_nat i + step >= 0)) eqn:E2; [|reflexivity].
  apply bool_decide_eq_true_1 in E1. apply bool_decide_eq_true_1 in E2.
  exfalso. apply Hout. lia.
Qed.

(** X7.  Without a usable current item (nothing selected, no current item,
    or a current item that is falsy) [select_next] does not step: on an
    empty list it does nothing; otherwise it makes the last item (for a
    positive step) or the first item (otherwise) the active item and the
    only selected one.  The active item being in step with the selection,
    this changes nothing at all when that item is active already; otherwise
    it becomes the current item too. *)
Theorem select_next_without_current s (step : Z) (shift : bool) :
  selection s = ∅ ∨ truthy_item truthy (_current s) = false →
  (_list s = [] → select_next truthy step shift s = (s, Ok tt)) ∧
  (∀ y, (if bool_decide (step > 0) then last (_list s) else head (_list s))
        = Some y →
        (active s = Some y → selection s = {[y]}) →
        (select_next truthy step shift s).2 = Ok tt ∧
        _list (select_next truthy step shift s).1 = _list s ∧
        emitted (select_next truthy step shift s).1 = emitted s ∧
        selection (select_next truthy step shift s).1 = {[y]} ∧
        active (select_next truthy step shift s).1 = Some y ∧
        (active s = Some y → select_next truthy step shift s = (s, Ok tt)) ∧
        (active s ≠ Some y →
         _current (select_next truthy step shift s).1 = Some y)).
Proof.
  intros Hno. rewrite (select_next_no_current s step shift Hno).
  rewrite select_end_run. split.
  - intros Hl. rewrite Hl. reflexivity.
  - intros y Hy Hstep.
    assert (Hin : y ∈ _list s).
    { destruct (bool_decide (step > 0)).
      - rewrite last_lookup in Hy. eapply list_elem_of_lookup_2. exact Hy.
      - destruct (_list s) as [|x l]; [discriminate|].
        injection Hy as ->. by left. }
    rewrite (bool_decide_eq_true_2 (py_len (_list s) > 0)).
    2:{ unfold py_len. destruct (_list s); [|simpl; lia].
        by apply elem_of_nil in Hin. }
    destruct (bool_decide (step > 0)).
    + rewrite (py_getitem_last _ y Hy). by apply set_active_in_step.
    + rewrite (py_getitem_head _ y Hy). by apply set_active_in_step.
Qed.

(** X8.  A current item that has left the list: when the selection is not
    empty and the current item is truthy but no longer in the list,
    [select_next] raises [ValueError] and changes nothing. *)
Theorem select_next_stale_current s cur (step : Z) (shift : bool) :
  selection s ≠ ∅ → _current s = Some cur → truthy cur = true →
  cur ∉ _list s →
  select_next truthy step shift s = (s, Raise ValueError).
Proof.
  intros Hsel Hcur Htr Hout. apply py_index_None in Hout.
  unfold select_next. run_method.
  rewrite Hcur. simpl. rewrite Htr.
  rewrite (bool_decide_eq_true_2 (selection s ≠ ∅)) by exact Hsel. simpl.
  rewrite index_run, Hout. reflexivity.
Qed.

(** Stepping with shift, from a usable current item first at [i] to the
    item [y] at [i + step]. *)
Lemma select_next_shift_run s cur (i : nat) (step : Z) y :
  selection s ≠ ∅ → _current s = Some cur → truthy cur = true →
  py_index cur (_list s) = Some i →
  0 ≤ Z.of_nat i + step →
  _list s !! Z.to_nat (Z.of_nat i + step) = Some y →
  select_next truthy step true s =
    if bool_decide (y ∈ selection s) then
      if bool_decide (cur ∈ selection s) then
        (with_current (Some y) (with_selection (selection s ∖ {[cur]}) s),
         Ok tt)
      else (s, Raise KeyError)
    else
      (with_current (Some y) (with_selection (selection s ∪ {[y]}) s), Ok tt).
Proof.
  intros Hsel Hcur Htr Hi Hge Hy.
  rewrite (select_next_from_current s cur i step true Hsel Hcur Htr Hi).
  pose proof (lookup_lt_Some _ _ _ Hy) as Hlt.
  rewrite (bool_decide_eq_true_2 (py_len (_list s) > Z.of_nat i + step))
    by (unfold py_len; lia).
  rewrite (bool_decide_eq_true_2 (Z.of_nat i + step >= 0)) by lia. simpl.
  rewrite (py_getitem_in_range _ _ y Hge Hy).
  destruct (bool_decide (y ∈ selection s)) eqn:Hysel.
  - unfold selection_remove, selection_discard, set_current. run_method.
    destruct (decide (cur ∈ selection s)) as [Hc|Hc].
    + rewrite (bool_decide_eq_false_2 (cur ∉ selection s)) by tauto.
      rewrite (bool_decide_eq_true_2 (cur ∈ selection s)) by exact Hc.
      reflexivity.
    + rewrite (bool_decide_eq_true_2 (cur ∉ selection s)) by exact Hc.
      rewrite (bool_decide_eq_false_2 (cur ∈ selection s)) by exact Hc.
      reflexivity.
  - apply bool_decide_eq_false_1 in Hysel.
    unfold set_current. run_method. rewrite selection_add_run.
    rewrite (bool_decide_eq_false_2 (y ∈ selection s)) by exact Hysel.
    rewrite (bool_decide_eq_false_2 (y ∉ _list s)).
    2:{ intros Hn. apply Hn. eapply list_elem_of_lookup_2. exact Hy. }
    reflexivity.
Qed.

(** X9.  Stepping with shift, from a usable current item first at [i] to
    the item [y] at [i + step]: when [y] is not selected it is added to the
    selection; when [y] is selected already the current item is taken out
    of the selection, with [KeyError] and no change at all when the current
    item is not selected itself.  In the two cases that return, [y] becomes
    the current item.  The list stays and no list event is emitted. *)
Theorem select_next_shift s cur (i : nat) (step : Z) y :
  selection s ≠ ∅ → _current s = Some cur → truthy cur = true →
  py_index cur (_list s) = Some i →
  0 ≤ Z.of_nat i + step →
  _list s !! Z.to_nat (Z.of_nat i + step) = Some y →
  _list (select_next truthy step true s).1 = _list s ∧
  emitted (select_next truthy step true s).1 = emitted s ∧
  (y ∉ selection s →
   (select_next truthy step true s).2 = Ok tt ∧
   selection (select_next truthy step true s).1 = selection s ∪ {[y]} ∧
   _current (select_next truthy step true s).1 = Some y) ∧
  (y ∈ selection s → cur ∈ selection s →
   (select_next truthy step true s).2 = Ok tt ∧
   selection (select_next truthy step true s).1 = selection s ∖ {[cur]} ∧
   _current (select_next truthy step true s).1 = Some y) ∧
  (y ∈ selection s → cur ∉ selection s →
   select_next truthy step true s = (s, Raise KeyError)).
Proof.
  intros Hsel Hcur Htr Hi Hge Hy.
  rewrite (select_next_shift_run s cur i step y Hsel Hcur Htr Hi Hge Hy).
  destruct (decide (y ∈ selection s)) as [Hys|Hys];
    [rewrite (bool_decide_eq_true_2 _ Hys)
    |rewrite (bool_decide_eq_false_2 _ Hys)].
  - destruct (decide (cur ∈ selection s)) as [Hcs|Hcs];
      [rewrite (bool_decide_eq_true_2 _ Hcs)
      |rewrite (bool_decide_eq_false_2 _ Hcs)];
      simpl; repeat split; try reflexivity; intros; contradiction.
  - simpl. repeat split; try reflexivity; intros; contradiction.
Qed.

(** X10.  In a list without repeated items, when the current item is usable,
    the item after it is truthy and is not the active item already,
    [select_next] followed by [select_previous] (both without shift) comes
    back to the current item: it is then the only selected item, the active
    one and the current one. *)
Theorem select_next_previous_returns s cur (i : nat) y :
  NoDup (_list s) →
  selection s ≠ ∅ → _current s = Some cur → truthy cur = true →
  py_index cur (_list s) = Some i →
  _list s !! S i = Some y → truthy y = true →
  active s ≠ Some y →
  (select_next truthy 1 false;; select_previous truthy false) s
  = (State (_list s) {[cur]} (Some cur) (Some cur) (_activate_on_insert s)
       (emitted s), Ok tt).
Proof.
  intros Hnd Hsel Hcur Htr Hi Hy Hty Hact.
  pose proof (py_index_lookup _ _ _ Hi) as Hci.
  assert (Hne : cur ≠ y).
  { intros ->. pose proof (NoDup_lookup _ _ _ _ Hnd Hci Hy). lia. }
  assert (Hstep : select_next truthy 1 false s
                  = (State (_list s) {[y]} (Some y) (Some y)
                       (_activate_on_insert s) (emitted s), Ok tt)).
  { apply (select_next_from_current s cur i 1 false Hsel Hcur Htr) in Hi
      as Hrun.
    rewrite Hrun.
    pose proof (lookup_lt_Some _ _ _ Hy) as Hlt.
    rewrite (bool_decide_eq_true_2 (py_len (_list s) > Z.of_nat i + 1))
      by (unfold py_len; lia).
    rewrite (bool_decide_eq_true_2 (Z.of_nat i + 1 >= 0)) by lia. simpl.
    rewrite (py_getitem_in_range (Z.of_nat i + 1) (_list s) y);
      [|lia|replace (Z.to_nat (Z.of_nat i + 1)) with (S i) by lia; exact Hy].
    rewrite set_active_run by (eapply list_elem_of_lookup_2; exact Hy).
    rewrite bool_decide_eq_false_2 by tauto. reflexivity. }
  erewrite bind_Ok by exact Hstep.
  unfold select_previous.
  erewrite (select_next_from_current _ y (S i) (-1) false); simpl;
    [|apply non_empty_singleton_L|reflexivity|exact Hty
     |by apply py_index_NoDup].
  pose proof (lookup_lt_Some _ _ _ Hy) as Hlt.
  rewrite (bool_decide_eq_true_2 (py_len (_list s) > Z.of_nat (S i) + -1))
    by (unfold py_len; lia).
  rewrite (bool_decide_eq_true_2 (Z.of_nat (S i) + -1 >= 0)) by lia. simpl.
  rewrite (py_getitem_in_range (Z.of_nat (S i) + -1) (_list s) cur);
    [|lia|replace (Z.to_nat (Z.of_nat (S i) + -1)) with i by lia; exact Hci].
  rewrite set_active_run by (simpl; eapply list_elem_of_lookup_2; exact Hci).
  simpl. rewrite bool_decide_eq_false_2; [reflexivity|].
  intros [[= Ha] _]. congruence.
Qed.

End SelectNextMoreFacts.

Section MethodMoreFacts.
Context {T : Type} `{Countable T}.
Implicit Types (s : state (T:=T)) (x y v : T).

Lemma select_all_run s :
  select_all s
  = (with_selection (selection s ∪ list_to_set (_list s)) s, Ok tt).
Proof.
  unfold select_all, selection_update. run_method.
  rewrite hook_each_run.
  rewrite bool_decide_eq_true_2.
  2:{ apply Forall_forall. intros x Hx.
      apply list_elem_of_filter in Hx as [_ Hx]. exact Hx. }
  assert (Hset : selection s
                   ∪ list_to_set (filter (λ x, x ∉ selection s) (_list s))
                 = selection s ∪ list_to_set (_list s)).
  { apply set_eq. intros x.
    rewrite !elem_of_union, !elem_of_list_to_set, list_elem_of_filter.
    destruct (decide (x ∈ selection s)); tauto. }
  rewrite Hset. reflexivity.
Qed.

(** X11.  [select_all] never raises: the hook lets every item of the list
    pass.  Afterwards an item is selected exactly when it was selected
    before or is in the list; the list is as before and no list event is
    emitted; and when the selection held only items of the list, it is now
    the set of all items of the list. *)
Theorem select_all_selects_the_list s :
  (select_all s).2 = Ok tt ∧
  _list (select_all s).1 = _list s ∧
  emitted (select_all s).1 = emitted s ∧
  (∀ x, x ∈ selection (select_all s).1 ↔ x ∈ selection s ∨ x ∈ _list s) ∧
  (selection_in_list s →
   selection (select_all s).1 = list_to_set (_list s)).
Proof.
  rewrite select_all_run. simpl.
  repeat (split; [reflexivity|]). split.
  - intros x. rewrite elem_of_union, elem_of_list_to_set. tauto.
  - intros Hinv. apply set_eq. intros x.
    rewrite elem_of_union, elem_of_list_to_set.
    split; [intros [Hx|Hx]; [by apply Hinv|exact Hx]|tauto].
Qed.

(** The loop of [remove_selected] on distinct items of the list: each is
    found and removed, the rest of the list keeps its order, and the index
    seen last is within the list that is left. *)
Lemma remove_each_run (todo : list T) :
  ∀ (idx : Z) s,
    NoDup todo → (∀ x, x ∈ todo → x ∈ _list s) →
    0 ≤ idx ≤ py_len (_list s) →
    ∃ s' (idx' : Z),
      remove_each todo idx s = (s', Ok idx') ∧
      _list s ≡ₚ todo ++ _list s' ∧
      sublist (_list s') (_list s) ∧
      selection s' = selection s ∖ list_to_set todo ∧
      0 ≤ idx' ≤ py_len (_list s').
Proof.
  induction todo as [|x rest IH]; intros idx s Hnd Hin Hidx.
  - exists s, idx. simpl. repeat split; try reflexivity; try lia.
    apply set_eq. intros y. rewrite elem_of_difference, elem_of_empty. tauto.
  - apply NoDup_cons in Hnd as [Hx Hnd].
    destruct (py_index_elem x (_list s)) as [i Hi]; [apply Hin; by left|].
    pose proof (py_index_lookup _ _ _ Hi) as Hli.
    pose proof (lookup_lt_Some _ _ _ Hli) as Hlt.
    cbn [remove_each].
    erewrite bind_Ok by (rewrite index_run, Hi; reflexivity).
    erewrite bind_Ok by (apply (remove_run x s i Hi)).
    match goal with |- context [remove_each rest _ ?s1] => set (s1' := s1) end.
    destruct (IH (Z.of_nat i) s1') as (s' & idx' & Hrun & Hperm & Hsub & Hsel & Hb).
    + exact Hnd.
    + intros y Hy. simpl. eapply elem_of_delete_other; [exact Hli| |].
      * apply Hin. by right.
      * intros ->. contradiction.
    + simpl. unfold py_len. rewrite length_delete by eauto. lia.
    + exists s', idx'. simpl in *. split; [exact Hrun|].
      split; [|split; [|split]].
      * rewrite (delete_Permutation _ _ _ Hli). simpl. by f_equiv.
      * etrans; [exact Hsub|]. apply sublist_delete.
      * rewrite Hsel. apply set_eq. intros y.
        change (list_to_set (x :: rest) : gset T)
          with ({[x]} ∪ list_to_set rest : gset T).
        rewrite !elem_of_difference, elem_of_union, elem_of_singleton. tauto.
      * exact Hb.
Qed.

(** What [remove_selected] comes to when the selection holds only items of
    the list. *)
Lemma remove_selected_run s :
  selection_in_list s →
  ∃ s',
    remove_selected s = (s', Ok tt) ∧
    _list s ≡ₚ elements (selection s) ++ _list s' ∧
    sublist (_list s') (_list s) ∧
    ((_list s' = [] ∧ selection s' = ∅) ∨
     (∃ y, y ∈ _list s' ∧ selection s' = {[y]})).
Proof.
  intros Hinv.
  destruct (remove_each_run (elements (selection s)) 0 s)
    as (s1 & idx & Hrun & Hperm & Hsub & Hsel & Hb).
  { apply NoDup_elements. }
  { intros x Hx. apply Hinv. by apply elem_of_elements. }
  { unfold py_len. lia. }
  rewrite list_to_set_elements_L in Hsel.
  assert (Hempty : selection s1 = ∅).
  { rewrite Hsel. apply set_eq. intros y.
    rewrite elem_of_difference, elem_of_empty. tauto. }
  unfold remove_selected. run_method. rewrite Hrun. rewrite len_run.
  destruct (bool_decide (py_len (_list s1) > Z.max 0 (idx - 1))) eqn:Hadd.
  - apply bool_decide_eq_true_1 in Hadd.
    destruct (lookup_lt_is_Some_2 (_list s1) (Z.to_nat (Z.max 0 (idx - 1))))
      as [y Hy]; [unfold py_len in Hadd; lia|].
    pose proof (list_elem_of_lookup_2 _ _ _ Hy) as Hyin.
    rewrite getitem_run.
    rewrite (py_getitem_in_range _ _ y (Z.le_max_l 0 (idx - 1)) Hy).
    rewrite selection_add_run, Hempty.
    rewrite bool_decide_eq_false_2 by apply not_elem_of_empty.
    rewrite (bool_decide_eq_false_2 (y ∉ _list s1)) by tauto.
    eexists. split; [reflexivity|]. simpl.
    split; [exact Hperm|]. split; [exact Hsub|].
    right. exists y. split; [exact Hyin|]. apply (left_id_L ∅ (∪)).
  - apply bool_decide_eq_false_1 in Hadd.
    exists s1. split; [reflexivity|].
    split; [exact Hperm|]. split; [exact Hsub|].
    left. split; [|exact Hempty].
    destruct (_list s1) as [|? ?]; [reflexivity|].
    exfalso. apply Hadd. unfold py_len in *. simpl in *. lia.
Qed.

(** X12.  When the selection holds only items of the list,
    [remove_selected] returns normally and takes out of the list exactly
    one occurrence of each selected item: the old list is a rearrangement
    of the selected items followed by the new list, and the items that stay
    keep their order. *)
Theorem remove_selected_takes_selected s :
  selection_in_list s →
  (remove_selected s).2 = Ok tt ∧
  _list s ≡ₚ elements (selection s) ++ _list (remove_selected s).1 ∧
  sublist (_list (remove_selected s).1) (_list s).
Proof.
  intros Hinv.
  destruct (remove_selected_run s Hinv) as (s' & -> & Hperm & Hsub & _).
  simpl. auto.
Qed.

(** X13.  When the selection holds only items of the list, after
    [remove_selected] nothing is selected if the list has become empty, and
    otherwise exactly one item is selected, an item of the list. *)
Theorem remove_selected_selects_one s :
  selection_in_list s →
  (_list (remove_selected s).1 = [] ∧ selection (remove_selected s).1 = ∅) ∨
  (∃ y, y ∈ _list (remove_selected s).1 ∧
        selection (remove_selected s).1 = {[y]}).
Proof.
  intros Hinv.
  destruct (remove_selected_run s Hinv) as (s' & -> & _ & _ & Hone).
  exact Hone.
Qed.

Lemma remove_each_missing (todo : list T) :
  ∀ (idx : Z) s x,
    x ∈ todo → x ∉ _list s →
    (remove_each todo idx s).2 = Raise ValueError.
Proof.
  induction todo as [|y rest IH]; intros idx s x Hx Hout.
  - by apply elem_of_nil in Hx.
  - cbn [remove_each].
    destruct (py_index y (_list s)) as [i|] eqn:Hi.
    + assert (Hne : x ≠ y).
      { intros ->. apply Hout. eapply list_elem_of_lookup_2.
        by apply py_index_lookup. }
      apply elem_of_cons in Hx as [Hx|Hx]; [contradiction|].
      erewrite bind_Ok by (rewrite index_run, Hi; reflexivity).
      erewrite bind_Ok by (apply (remove_run y s i Hi)).
      apply (IH _ _ x Hx). simpl. intros Hin. apply Hout.
      eapply list_elem_of_delete_inv. exact Hin.
    + erewrite bind_Raise by (rewrite index_run, Hi; reflexivity).
      reflexivity.
Qed.

(** X19.  When some selected item is not in the list, [remove_selected]
    raises [ValueError]: the search for that item fails. *)
Theorem remove_selected_missing_item s x :
  x ∈ selection s → x ∉ _list s →
  (remove_selected s).2 = Raise ValueError.
Proof.
  intros Hsel Hout. unfold remove_selected. run_method.
  pose proof (remove_each_missing (elements (selection s)) 0 s x) as Hloop.
  specialize (Hloop (proj2 (elem_of_elements _ _) Hsel) Hout).
  destruct (remove_each (elements (selection s)) 0 s) as [s1 [idx|e]];
    simpl in *; [discriminate Hloop|].
  injection Hloop as ->. reflexivity.
Qed.

Lemma py_index_fresh (l1 l2 : list T) v :
  v ∉ l1 → py_index v (l1 ++ v :: l2)%list = Some (length l1).
Proof.
  induction l1 as [|x l1 IH]; intros Hv; simpl.
  - rewrite decide_True by reflexivity. reflexivity.
  - apply not_elem_of_cons in Hv as [Hne Hv].
    rewrite decide_False by congruence. rewrite (IH Hv). reflexivity.
Qed.

Lemma delete_middle (l1 l2 : list T) v :
  delete (length l1) (l1 ++ v :: l2)%list = (l1 ++ l2)%list.
Proof. induction l1 as [|x l1 IH]; simpl; [reflexivity|by f_equal]. Qed.

(** X14.  Inserting a value that is not yet in the list and removing it
    again gives the former list back, at whatever index it was inserted,
    and emits the two pairs of events; but with [_activate_on_insert] set
    the former selection is not restored: nothing is selected any more. *)
Theorem insert_remove_restores_list (i : Z) v s :
  v ∉ _list s →
  ((insert i v;; remove v) s).2 = Ok tt ∧
  _list ((insert i v;; remove v) s).1 = _list s ∧
  (_activate_on_insert s = true →
   selection ((insert i v;; remove v) s).1 = ∅) ∧
  ∃ n : nat,
    emitted ((insert i v;; remove v) s).1
    = (emitted s ++ [(inserting i, _list s);
                     (inserted i v, py_insert i v (_list s));
                     (removing (Z.of_nat n), py_insert i v (_list s));
                     (removed (Z.of_nat n) v, _list s)])%list.
Proof.
  intros Hv.
  erewrite bind_Ok by apply insert_run.
  set (n := Z.to_nat (if bool_decide (i < 0)
                      then Z.max (i + py_len (_list s)) 0
                      else Z.min i (py_len (_list s)))).
  assert (Hins : py_insert i v (_list s)
                 = (take n (_list s) ++ v :: drop n (_list s))%list)
    by reflexivity.
  assert (Hfresh : v ∉ take n (_list s)).
  { intros Hin. apply Hv. rewrite <- (take_drop n (_list s)).
    apply elem_of_app. by left. }
  assert (Hi : py_index v (py_insert i v (_list s))
               = Some (length (take n (_list s)))).
  { rewrite Hins. by apply py_index_fresh. }
  assert (Hdel : delete (length (take n (_list s))) (py_insert i v (_list s))
                 = _list s).
  { rewrite Hins, delete_middle. apply take_drop. }
  destruct (_activate_on_insert s) eqn:Hflag.
  - erewrite remove_run by (simpl; exact Hi). simpl. rewrite Hdel.
    split; [reflexivity|]. split; [reflexivity|]. split.
    + intros _. apply set_eq. intros x.
      rewrite elem_of_difference, elem_of_singleton, elem_of_empty. tauto.
    + eexists. rewrite <- app_assoc. reflexivity.
  - erewrite remove_run by (simpl; exact Hi). simpl. rewrite Hdel.
    split; [reflexivity|]. split; [reflexivity|]. split; [discriminate|].
    eexists. rewrite <- app_assoc. reflexivity.
Qed.

(** X15.  Removing an item that occurs more than once takes out its first
    occurrence only, yet deselects the item: afterwards the item is still
    in the list and is not selected. *)
Theorem remove_deselects_remaining_copy v s (i : nat) :
  py_index v (_list s) = Some i →
  v ∈ delete i (_list s) →
  (remove v s).2 = Ok tt ∧
  _list (remove v s).1 = delete i (_list s) ∧
  v ∈ _list (remove v s).1 ∧
  v ∉ selection (remove v s).1.
Proof.
  intros Hi Hcopy. rewrite (remove_run v s i Hi). simpl.
  repeat split; try reflexivity; try exact Hcopy.
  rewrite elem_of_difference, elem_of_singleton. tauto.
Qed.

End MethodMoreFacts.

Section FrameFacts.
Context {T : Type} `{Countable T}.
Variable truthy : T → bool.
Implicit Types (s : state (T:=T)) (x y v : T).

(** The methods of the selection keep the list [l] and the events [e]. *)
Lemma framed_selection_add (l : list T) (e : list (event * list T)) v : keeps (λ s, _list s = l ∧ emitted s = e) (selection_add v).
Proof.
  intros s Hs. rewrite selection_add_run.
  repeat case_bool_decide; exact Hs.
Qed.

Lemma framed_set_current (l : list T) (e : list (event * list T))
    (c : option T) :
  keeps (λ s, _list s = l ∧ emitted s = e) (set_current c).
Proof. apply keeps_modify. intros s Hs. exact Hs. Qed.

Lemma framed_selection_remove (l : list T) (e : list (event * list T)) v :
  keeps (λ s, _list s = l ∧ emitted s = e) (selection_remove v).
Proof.
  apply keeps_get_any. intros s0. case_bool_decide.
  - intros s Hs. exact Hs.
  - apply keeps_modify. intros s Hs. exact Hs.
Qed.

Lemma framed_set_active (l : list T) (e : list (event * list T)) v :
  keeps (λ s, _list s = l ∧ emitted s = e) (set_active v).
Proof.
  apply keeps_get_any. intros s0. case_bool_decide; [apply keeps_ret|].
  apply keeps_bind; [apply keeps_modify; intros s Hs; exact Hs|intros _].
  apply keeps_bind; [|intros _; apply framed_set_current].
  apply keeps_bind; [|intros _; apply framed_selection_add].
  apply keeps_modify. intros s Hs. exact Hs.
Qed.

Lemma framed_select_next (l : list T) (e : list (event * list T))
    (step : Z) (shift : bool) :
  keeps (λ s, _list s = l ∧ emitted s = e) (select_next truthy step shift).
Proof.
  apply keeps_get_any. intros s0.
  destruct (_ && _).
  - destruct (_current s0) as [cur|]; [|apply keeps_ret].
    apply keeps_bind; [apply keeps_index|intros i].
    apply keeps_bind; [apply keeps_len|intros n].
    destruct (_ && _); [|apply keeps_ret].
    apply keeps_bind; [apply keeps_getitem|intros next_layer].
    destruct shift; [|apply framed_set_active].
    apply keeps_get_any. intros s1.
    case_bool_decide.
    + apply keeps_bind; [apply framed_selection_remove|intros _].
      apply framed_set_current.
    + apply keeps_bind; [apply framed_selection_add|intros _].
      apply framed_set_current.
  - apply keeps_bind; [apply keeps_len|intros n].
    case_bool_decide; [|apply keeps_ret].
    apply keeps_bind; [apply keeps_getitem|intros x].
    apply framed_set_active.
Qed.

(** X16.  [select_next] and [select_previous] only ever touch the
    selection: whatever their arguments, and whether they return or raise,
    the list is as before and no list event is emitted. *)
Theorem select_next_leaves_list s :
  (∀ (step : Z) (shift : bool),
     _list (select_next truthy step shift s).1 = _list s ∧
     emitted (select_next truthy step shift s).1 = emitted s) ∧
  (∀ shift : bool,
     _list (select_previous truthy shift s).1 = _list s ∧
     emitted (select_previous truthy shift s).1 = emitted s).
Proof.
  split.
  - intros step shift.
    apply (framed_select_next (_list s) (emitted s) step shift s).
    split; reflexivity.
  - intros shift.
    apply (framed_select_next (_list s) (emitted s) (-1) shift s).
    split; reflexivity.
Qed.

End FrameFacts.

Section MoveSelectedFacts.
Context {T : Type} `{Countable T}.
Variable warnings_warn : M (T:=T) unit.
Variable move_multiple : list Z → Z → M (T:=T) Z.
Implicit Types (s : state (T:=T)) (x y v : T).

Lemma elem_of_selected_positions (l : list T) (X : gset T) (p : Z) :
  p ∈ selected_positions l X ↔
  ∃ (n : nat) y, p = Z.of_nat n ∧ l !! n = Some y ∧ y ∈ X.
Proof.
  unfold selected_positions. rewrite list_elem_of_fmap. split.
  - intros ([n y] & -> & Hin). apply list_elem_of_filter in Hin as [HX Hin].
    apply elem_of_lookup_imap in Hin as (n' & y' & [= -> ->] & Hl).
    exists n', y'. auto.
  - intros (n & y & -> & Hl & HX). exists (n, y). split; [reflexivity|].
    apply list_elem_of_filter. split; [exact HX|].
    apply elem_of_lookup_imap. exists n, y. auto.
Qed.

Lemma py_getitem_out_of_range (index : Z) (l : list T) :
  ¬ (- py_len l ≤ index < py_len l) → py_getitem index l = Raise IndexError.
Proof.
  intros Hout. unfold py_getitem.
  destruct (bool_decide (index < 0)) eqn:Hneg;
    [apply bool_decide_eq_true_1 in Hneg
    |apply bool_decide_eq_false_1 in Hneg];
    (destruct (bool_decide (0 ≤ _)) eqn:H0; [|reflexivity]);
    (destruct (bool_decide (_ < py_len l)) eqn:H1; [|reflexivity]);
    apply bool_decide_eq_true_1 in H0; apply bool_decide_eq_true_1 in H1;
    exfalso; apply Hout; lia.
Qed.

(** The positions come in ascending order, none twice. *)
Lemma selected_positions_from (k : nat) (l : list T) (X : gset T) :
  StronglySorted Z.lt
    ((λ p : nat * T, Z.of_nat p.1)
       <$> filter (λ p : nat * T, p.2 ∈ X)
             (imap (λ i x, ((k + i)%nat, x)) l)) ∧
  Forall (λ p, Z.of_nat k ≤ p)
    ((λ p : nat * T, Z.of_nat p.1)
       <$> filter (λ p : nat * T, p.2 ∈ X)
             (imap (λ i x, ((k + i)%nat, x)) l)).
Proof.
  revert k. induction l as [|x l IH]; intros k.
  - split; constructor.
  - cbn [imap].
    rewrite (imap_ext _ (λ i y, ((S k + i)%nat, y)) l)
      by (intros i y _; simpl; f_equal; lia).
    destruct (IH (S k)) as [Hsorted Hlow].
    assert (Hlow' : Forall (λ p, Z.of_nat k ≤ p)
              ((λ p : nat * T, Z.of_nat p.1)
                 <$> filter (λ p : nat * T, p.2 ∈ X)
                       (imap (λ i y, ((S k + i)%nat, y)) l))).
    { eapply Forall_impl; [exact Hlow|]. intros p Hp. simpl in Hp. lia. }
    rewrite filter_cons. destruct (decide _) as [Hx|Hx]; simpl.
    + split.
      * constructor; [exact Hsorted|].
        eapply Forall_impl; [exact Hlow|]. intros p Hp. simpl in Hp. lia.
      * constructor; [lia|exact Hlow'].
    + split; [exact Hsorted|exact Hlow'].
Qed.

Lemma selected_positions_sorted (l : list T) (X : gset T) :
  StronglySorted Z.lt (selected_positions l X).
Proof.
  unfold selected_positions.
  rewrite (imap_ext pair (λ i x, ((0 + i)%nat, x)) l)
    by (intros i x _; reflexivity).
  apply selected_positions_from.
Qed.

(** X17.  What [move_selected] hands to [move_multiple], when the warning
    passes and [self[index]] exists.  If that item is not selected it
    becomes the only selected item and the positions to move are [index]
    alone.  If it is selected the selection stays and the positions are
    exactly those whose item is selected, in ascending order, none twice.
    Either way the item at [index] is selected at the hand-over, every
    position handed over holds a selected item, the list is untouched and
    no list event has been emitted, and the target is [insert + 1] when
    [insert >= index] and [insert] otherwise. *)
Theorem move_selected_hands_over (index insert : Z) s x :
  warnings_warn s = (s, Ok tt) →
  py_getitem index (_list s) = Ok x →
  ∃ (moving : list Z) s',
    move_selected warnings_warn move_multiple index insert s
    = (move_multiple moving
         (insert + (if bool_decide (insert >= index) then 1 else 0));;
       mret tt) s' ∧
    _list s' = _list s ∧
    emitted s' = emitted s ∧
    (x ∉ selection s → moving = [index] ∧ selection s' = {[x]}) ∧
    (x ∈ selection s →
     selection s' = selection s ∧
     StronglySorted Z.lt moving ∧
     ∀ p, p ∈ moving ↔
          ∃ (n : nat) y,
            p = Z.of_nat n ∧ _list s !! n = Some y ∧ y ∈ selection s) ∧
    x ∈ selection s' ∧
    ∀ p, p ∈ moving → ∃ y, py_getitem p (_list s') = Ok y ∧ y ∈ selection s'.
Proof.
  intros Hwarn Hx.
  assert (Hxin : x ∈ _list s) by (by eapply py_getitem_elem_of).
  unfold move_selected.
  erewrite bind_Ok by exact Hwarn.
  erewrite bind_Ok by (rewrite getitem_run, Hx; reflexivity).
  run_method.
  destruct (decide (x ∈ selection s)) as [Hsel|Hsel].
  - rewrite (bool_decide_eq_false_2 (x ∉ selection s)) by tauto.
    exists (selected_positions (_list s) (selection s)), s.
    repeat (split; [reflexivity|]).
    split; [intros Hn; contradiction|].
    split.
    { intros _. split; [reflexivity|].
      split; [apply selected_positions_sorted|].
      intros p. apply elem_of_selected_positions. }
    split; [exact Hsel|].
    intros p Hp. apply elem_of_selected_positions in Hp
      as (n & y & -> & Hl & Hy).
    exists y. split; [by apply py_getitem_nonneg|exact Hy].
  - rewrite (bool_decide_eq_true_2 (x ∉ selection s)) by exact Hsel.
    rewrite getitem_run, Hx.
    unfold selection_select_only. run_method.
    rewrite selection_add_run. simpl.
    rewrite (bool_decide_eq_false_2 (x ∈ selection s ∩ {[x]})).
    2:{ rewrite elem_of_intersection. tauto. }
    rewrite (bool_decide_eq_false_2 (x ∉ _list s)) by tauto.
    assert (Hset : selection s ∩ {[x]} ∪ {[x]} = ({[x]} : gset T)).
    { apply set_eq. intros y.
      rewrite elem_of_union, elem_of_intersection, elem_of_singleton. tauto. }
    eexists [index], _. split; [reflexivity|]. simpl.
    split; [reflexivity|]. split; [reflexivity|].
    split; [intros _; split; [reflexivity|exact Hset]|].
    split; [intros Hn; contradiction|].
    rewrite Hset. split; [by apply elem_of_singleton|].
    intros p Hp. apply list_elem_of_singleton in Hp as ->.
    exists x. split; [exact Hx|by apply elem_of_singleton].
Qed.

(** X18.  An index outside the list: when the warning passes,
    [move_selected] raises [IndexError] at [self[index]]; nothing is moved
    and the selection is untouched. *)
Theorem move_selected_out_of_range (index insert : Z) s :
  warnings_warn s = (s, Ok tt) →
  ¬ (- py_len (_list s) ≤ index < py_len (_list s)) →
  move_selected warnings_warn move_multiple index insert s
  = (s, Raise IndexError).
Proof.
  intros Hwarn Hout. unfold move_selected.
  erewrite bind_Ok by exact Hwarn.
  erewrite bind_Raise; [reflexivity|].
  rewrite getitem_run, (py_getitem_out_of_range _ _ Hout). reflexivity.
Qed.

End MoveSelectedFacts.

(** Concrete runs on the list [1; 2; 3], with 2 selected, active and
    current unless said otherwise. *)

Lemma select_next_moves_witness :
  selection
    (select_next nat_truthy 1 false
       (State [1; 2; 3]%nat {[2%nat]} (Some 2%nat) (Some 2%nat) true [])).1
  = {[3%nat]}.
Proof.
  apply (select_next_moves nat_truthy
           (State [1; 2; 3]%nat {[2%nat]} (Some 2%nat) (Some 2%nat) true [])
           2%nat 1%nat 1 3%nat);
    [apply non_empty_singleton_L|reflexivity..|simpl; lia|reflexivity|].
  simpl. intros E. discriminate E.
Defined.

Lemma select_next_stops_at_ends_witness :
  select_next nat_truthy 1 true
    (State [1; 2; 3]%nat {[3%nat]} (Some 3%nat) (Some 3%nat) true [])
  = (State [1; 2; 3]%nat {[3%nat]} (Some 3%nat) (Some 3%nat) true [], Ok tt).
Proof.
  apply (select_next_stops_at_ends nat_truthy
           (State [1; 2; 3]%nat {[3%nat]} (Some 3%nat) (Some 3%nat) true [])
           3%nat 2%nat 1 true);
    [apply non_empty_singleton_L|reflexivity..|unfold py_len; simpl; lia].
Defined.

Lemma select_next_without_current_witness :
  selection (select_next nat_truthy 1 false (unselected [1; 2; 3]%nat)).1
  = {[3%nat]}.
Proof.
  destruct (select_next_without_current nat_truthy
              (unselected [1; 2; 3]%nat) 1 false) as [_ Hlast];
    [left; reflexivity|].
  apply (Hlast 3%nat); [reflexivity|].
  simpl. intros E. discriminate E.
Defined.

Lemma select_next_stale_current_witness :
  select_next nat_truthy 1 false
    (State [1; 3]%nat {[3%nat]} None (Some 2%nat) true [])
  = (State [1; 3]%nat {[3%nat]} None (Some 2%nat) true [], Raise ValueError).
Proof.
  apply (select_next_stale_current nat_truthy
           (State [1; 3]%nat {[3%nat]} None (Some 2%nat) true []) 2%nat 1 false);
    [apply non_empty_singleton_L|reflexivity..|].
  simpl. rewrite !not_elem_of_cons. repeat split; try lia.
  apply not_elem_of_nil.
Defined.

Lemma select_next_shift_witness :
  selection
    (select_next nat_truthy 1 true
       (State [1; 2; 3]%nat {[2%nat]} (Some 2%nat) (Some 2%nat) true [])).1
  = {[2%nat]} ∪ {[3%nat]}.
Proof.
  destruct (select_next_shift nat_truthy
              (State [1; 2; 3]%nat {[2%nat]} (Some 2%nat) (Some 2%nat) true [])
              2%nat 1%nat 1 3%nat)
    as (_ & _ & Hadd & _);
    [apply non_empty_singleton_L|reflexivity..|simpl; lia|reflexivity|].
  apply Hadd. simpl. rewrite elem_of_singleton. lia.
Defined.

Lemma select_next_previous_returns_witness :
  (select_next nat_truthy 1 false;; select_previous nat_truthy false)
    (State [1; 2; 3]%nat {[2%nat]} (Some 2%nat) (Some 2%nat) true [])
  = (State [1; 2; 3]%nat {[2%nat]} (Some 2%nat) (Some 2%nat) true [], Ok tt).
Proof.
  apply (select_next_previous_returns nat_truthy
           (State [1; 2; 3]%nat {[2%nat]} (Some 2%nat) (Some 2%nat) true [])
           2%nat 1%nat 3%nat);
    [|apply non_empty_singleton_L|reflexivity..|simpl; intros E; discriminate E].
  simpl. repeat (apply NoDup_cons; split;
                 [rewrite ?not_elem_of_cons; repeat split; try lia;
                  apply not_elem_of_nil|]).
  apply NoDup_nil_2.
Defined.

Lemma counted_selection_in_list :
  selection_in_list
    (State [1; 2; 3; 2]%nat {[2%nat]} (Some 2%nat) (Some 2%nat) true []).
Proof.
  intros x Hx. simpl in *. apply elem_of_singleton in Hx as ->.
  rewrite !elem_of_cons. auto.
Qed.

Lemma select_all_selects_the_list_witness :
  selection
    (select_all
       (State [1; 2; 3; 2]%nat {[2%nat]} (Some 2%nat) (Some 2%nat) true [])).1
  = list_to_set [1; 2; 3; 2]%nat.
Proof.
  apply (select_all_selects_the_list
           (State [1; 2; 3; 2]%nat {[2%nat]} (Some 2%nat) (Some 2%nat) true [])).
  exact counted_selection_in_list.
Defined.

Lemma remove_selected_takes_selected_witness :
  (remove_selected
     (State [1; 2; 3; 2]%nat {[2%nat]} (Some 2%nat) (Some 2%nat) true [])).2
  = Ok tt.
Proof.
  apply (remove_selected_takes_selected
           (State [1; 2; 3; 2]%nat {[2%nat]} (Some 2%nat) (Some 2%nat) true [])).
  exact counted_selection_in_list.
Defined.

Lemma remove_selected_selects_one_witness :
  (_list (remove_selected
            (State [1; 2; 3; 2]%nat {[2%nat]} (Some 2%nat) (Some 2%nat)
               true [])).1 = [] ∧
   selection (remove_selected
                (State [1; 2; 3; 2]%nat {[2%nat]} (Some 2%nat) (Some 2%nat)
                   true [])).1 = ∅) ∨
  (∃ y, y ∈ _list (remove_selected
                     (State [1; 2; 3; 2]%nat {[2%nat]} (Some 2%nat)
                        (Some 2%nat) true [])).1 ∧
        selection (remove_selected
                     (State [1; 2; 3; 2]%nat {[2%nat]} (Some 2%nat)
                        (Some 2%nat) true [])).1 = {[y]}).
Proof.
  apply (remove_selected_selects_one
           (State [1; 2; 3; 2]%nat {[2%nat]} (Some 2%nat) (Some 2%nat) true [])).
  exact counted_selection_in_list.
Defined.

Lemma remove_selected_missing_item_witness :
  (remove_selected
     (State [1; 3]%nat {[2%nat]} (Some 2%nat) (Some 2%nat) true [])).2
  = Raise ValueError.
Proof.
  apply (remove_selected_missing_item
           (State [1; 3]%nat {[2%nat]} (Some 2%nat) (Some 2%nat) true [])
           2%nat).
  - simpl. by apply elem_of_singleton.
  - simpl. rewrite !not_elem_of_cons. repeat split; try lia.
    apply not_elem_of_nil.
Defined.

Lemma insert_remove_restores_list_witness :
  _list ((insert 1 7%nat;; remove 7%nat)
           (State [1; 2; 3]%nat {[2%nat]} (Some 2%nat) (Some 2%nat) true [])).1
  = [1; 2; 3]%nat.
Proof.
  apply (insert_remove_restores_list 1 7%nat
           (State [1; 2; 3]%nat {[2%nat]} (Some 2%nat) (Some 2%nat) true [])).
  simpl. rewrite !not_elem_of_cons. repeat split; try lia.
  apply not_elem_of_nil.
Defined.

Lemma remove_deselects_remaining_copy_witness :
  2%nat ∈ _list (remove 2%nat
                   (State [1; 2; 3; 2]%nat {[2%nat]} (Some 2%nat) (Some 2%nat)
                      true [])).1 ∧
  2%nat ∉ selection (remove 2%nat
                       (State [1; 2; 3; 2]%nat {[2%nat]} (Some 2%nat)
                          (Some 2%nat) true [])).1.
Proof.
  apply (remove_deselects_remaining_copy 2%nat
           (State [1; 2; 3; 2]%nat {[2%nat]} (Some 2%nat) (Some 2%nat) true [])
           1%nat); [reflexivity|].
  simpl. rewrite !elem_of_cons. auto.
Defined.

Lemma move_selected_hands_over_witness :
  ∃ (moving : list Z) s',
    move_selected quiet_warn count_moves 1 0
      (State [1; 2; 3; 2]%nat {[2%nat]} (Some 2%nat) (Some 2%nat) true [])
    = (count_moves moving 0;; mret tt) s' ∧
    (1 ∈ moving ∧ 3 ∈ moving).
Proof.
  destruct (move_selected_hands_over quiet_warn count_moves 1 0
              (State [1; 2; 3; 2]%nat {[2%nat]} (Some 2%nat) (Some 2%nat)
                 true [])
              2%nat eq_refl eq_refl)
    as (moving & s' & Hrun & _ & _ & _ & Hsel & _).
  destruct Hsel as (_ & _ & Hpos); [simpl; by apply elem_of_singleton|].
  exists moving, s'. split; [exact Hrun|]. split; apply Hpos.
  - exists 1%nat, 2%nat. simpl.
    split; [reflexivity|]. split; [reflexivity|]. by apply elem_of_singleton.
  - exists 3%nat, 2%nat. simpl.
    split; [reflexivity|]. split; [reflexivity|]. by apply elem_of_singleton.
Defined.

Lemma move_selected_out_of_range_witness :
  move_selected quiet_warn count_moves 3 0
    (State [1; 2; 3]%nat {[2%nat]} (Some 2%nat) (Some 2%nat) true [])
  = (State [1; 2; 3]%nat {[2%nat]} (Some 2%nat) (Some 2%nat) true [],
     Raise IndexError).
Proof.
  apply (move_selected_out_of_range quiet_warn count_moves 3 0
           (State [1; 2; 3]%nat {[2%nat]} (Some 2%nat) (Some 2%nat) true []));
    [reflexivity|unfold py_len; simpl; lia].
Defined.

End SelectableListMoreFacts.
